(** * Planetary gear generator: involute profile, gear outline and layout

    A shallow embedding of [src/__init__.py] (the gear-profile functions,
    [create_gear_object] and the operator's [execute]) and the properties
    of its specification.

    Numbers.  Python [float]s are idealised as the real numbers [R] of the
    Standard Library, and Python [int]s are [Z], injected with [IZR] where
    Python converts them to [float].  Rounding, overflow, infinities and NaN
    are outside this model: a comparison is decided on the exact values, so
    where two values tie or differ by rounding only the doubles may take
    the other branch, and a difference of nearly equal terms (the involute
    angle just above the base circle) carries no rounding error here.

    Exceptions.  [x / y] raises [ZeroDivisionError] when [y] is zero,
    [math.sqrt] and [math.acos] raise [ValueError] outside their domains and
    indexing an empty list raises [IndexError]; such code lives in the
    [result] monad below, with the evaluation order of the source. *)

From Stdlib Require Import Reals Lra Lia ZArith List String Bool.
From Stdlib Require Import DecimalString.
Import ListNotations.

Local Open Scope R_scope.

(** ** Python exceptions as an error monad *)

Inductive PyExn : Type :=
| ZeroDivisionError
| ValueError
| IndexError.

Inductive result (A : Type) : Type :=
| Ok (a : A)
| Raise (e : PyExn).

Arguments Ok {A} a.
Arguments Raise {A} e.

Definition bind {A B : Type} (m : result A) (k : A -> result B) : result B :=
  match m with
  | Ok a => k a
  | Raise e => Raise e
  end.

Notation "x <- m ;; k" := (bind m (fun x => k))
  (at level 61, m at next level, right associativity).

(** [[f(x) for x in xs]], and a [for] loop that appends [f(x)] each round:
    the elements are evaluated left to right and the first exception ends
    the loop. *)
Fixpoint mapM {A B : Type} (f : A -> result B) (xs : list A) : result (list B) :=
  match xs with
  | [] => Ok []
  | x :: xs' =>
      y <- f x ;;
      ys <- mapM f xs' ;;
      Ok (y :: ys)
  end.

(** ** Python arithmetic *)

(** [x / y] on floats (and [int / int], which is true division). *)
Definition py_div (x y : R) : result R :=
  if Req_dec_T y 0 then Raise ZeroDivisionError else Ok (x / y).

Definition math_sqrt (x : R) : result R :=
  if Rlt_dec x 0 then Raise ValueError else Ok (sqrt x).

Definition math_acos (x : R) : result R :=
  if Rlt_dec x (-1) then Raise ValueError
  else if Rlt_dec 1 x then Raise ValueError
  else Ok (acos x).

(** [math.radians(x)]. *)
Definition math_radians (x : R) : R := x * (PI / 180).

(** [range(n)] and [range(n, -1, -1)]. *)
Definition range (n : Z) : list Z :=
  map Z.of_nat (seq 0 (Z.to_nat n)).

Definition range_down (n : Z) : list Z :=
  rev (range (n + 1)).

(** ** Involute math *)

Definition Point2D : Type := (R * R)%type.
Definition Point3D : Type := (R * R * R)%type.

Definition polar (radius angle : R) : Point2D :=
  (radius * cos angle, radius * sin angle).

Definition calculate_involute_angle (base_radius radius : R) : result R :=
  if Rle_dec radius base_radius then Ok 0
  else
    q <- py_div radius base_radius ;;
    s <- math_sqrt (q ^ 2 - 1) ;;
    c <- py_div base_radius radius ;;
    a <- math_acos c ;;
    Ok (s - a).

Definition get_involute_point (base_radius side angle_offset radius : R)
  : result Point2D :=
  let radius := if Rlt_dec radius base_radius then base_radius else radius in
  involute_angle <- calculate_involute_angle base_radius radius ;;
  Ok (polar radius (side * (involute_angle + angle_offset))).

Definition get_tooth_profile_point
  (fraction root_radius base_radius outer_radius angle_offset side : R)
  : result Point2D :=
  let start_radius := Rmax base_radius root_radius in
  let current_radius := (1 - fraction) * start_radius + fraction * outer_radius in
  get_involute_point base_radius side angle_offset current_radius.

Definition rotate_point_2d (point : Point2D) (angle : R) : Point2D :=
  let '(x, y) := point in
  let cos_a := cos angle in
  let sin_a := sin angle in
  (x * cos_a - y * sin_a, x * sin_a + y * cos_a).

(** ** Gear polygon builder *)

Definition num_segments : Z := 5.

Definition build_gear_verts
  (num_teeth : Z) (scale : R) (is_internal : bool) (pressure_angle_deg : R)
  : result (list Point2D) :=
  let module := scale in
  let pitch_radius := (module * IZR num_teeth) / 2 in
  let pressure_angle_rad := math_radians pressure_angle_deg in
  let base_radius := pitch_radius * cos pressure_angle_rad in
  let outer_radius := pitch_radius + module in
  let root_radius := pitch_radius - (module * 1.25) in
  half_tooth_thickness_angle <-
    (if Rlt_dec 0 pitch_radius
     then py_div (module * PI / 2) pitch_radius
     else Ok 0) ;;
  pitch_involute <- calculate_involute_angle base_radius pitch_radius ;;
  let involute_angle_offset := - pitch_involute - half_tooth_thickness_angle / 2 in
  root_start_angle <-
    (if Rlt_dec root_radius base_radius
     then Ok involute_angle_offset
     else py_div (- PI) (IZR num_teeth)) ;;
  root_end_angle <-
    (if Rlt_dec root_radius base_radius
     then Ok (- involute_angle_offset)
     else py_div PI (IZR num_teeth)) ;;
  rising <-
    mapM (fun i =>
            fraction <- py_div (IZR i) (IZR num_segments) ;;
            get_tooth_profile_point fraction root_radius base_radius
              outer_radius involute_angle_offset 1)
         (range (num_segments + 1)) ;;
  falling <-
    mapM (fun i =>
            fraction <- py_div (IZR i) (IZR num_segments) ;;
            get_tooth_profile_point fraction root_radius base_radius
              outer_radius involute_angle_offset (-1))
         (range_down num_segments) ;;
  let tooth_points :=
    [polar root_radius root_start_angle] ++ rising ++ falling
      ++ [polar root_radius root_end_angle] in
  tooth_angle <- py_div (2 * PI) (IZR num_teeth) ;;
  let all_points :=
    flat_map (fun i =>
                let rotation := IZR i * tooth_angle in
                map (fun point => rotate_point_2d point rotation) tooth_points)
             (range num_teeth) in
  let all_points := if is_internal then rev all_points else all_points in
  Ok (match all_points with
      | [] => all_points
      | first :: _ => all_points ++ [first]
      end).

(** ** Solid mesh builder and planetary layout *)

(** What [bm.to_mesh] leaves in the mesh data-block: the single planar face
    (its vertices in order) and, when the face was extruded, the distance. *)
Record Mesh : Type := mkMesh {
  mesh_name : string;
  mesh_face : list Point3D;
  mesh_extrude : option R
}.

(** A scene object: [bpy.data.objects.new(name, data)] with its placement. *)
Record BObject : Type := mkObject {
  ob_name : string;
  ob_data : Mesh;
  ob_location : Point3D;
  ob_rotation_z : R
}.

Definition objects_new (name : string) (data : Mesh) : BObject :=
  mkObject name data (0, 0, 0) 0.

Definition flat (v : Point2D) : Point3D := (fst v, snd v, 0).

(** [str(n)] for the f-string of the planet names. *)
Definition str (n : Z) : string := NilZero.string_of_int (Z.to_int n).

Record PlanetaryGearProperties : Type := mkProps {
  sun_teeth : Z;
  planet_teeth : Z;
  num_planets : Z;
  pressure_angle : R;
  scale : R;
  thickness : R;
  ring_margin : R;
  clearance : R
}.

Section Blender.

(** [bm.faces.new] belongs to the host application: it raises [ValueError]
    on a vertex loop it cannot turn into a face.  [face_accepted] says on
    which loops it succeeds. *)
Variable face_accepted : list Point3D -> bool.

Definition create_gear_object
  (name : string) (num_teeth : Z) (scale : R) (is_internal : bool)
  (thickness pressure_angle_deg ring_margin : R) : result (option BObject) :=
  verts_2d <- build_gear_verts num_teeth scale is_internal pressure_angle_deg ;;
  match verts_2d with
  | [] => Ok None
  | _ :: _ =>
      face <-
        (if negb is_internal then Ok (map flat verts_2d)
         else
           let pitch_radius := (scale * IZR num_teeth) / 2 in
           let ring_margin_size := scale * ring_margin in
           let outer_radius := pitch_radius + (scale * 2) + ring_margin_size in
           let num_outer_verts := Z.max (num_teeth * 2) 64 in
           outer_verts_2d <-
             mapM (fun i =>
                     a <- py_div (2 * PI * IZR i) (IZR num_outer_verts) ;;
                     Ok (polar outer_radius a))
                  (range num_outer_verts) ;;
           outer_verts_2d <-
             match outer_verts_2d with
             | [] => Raise IndexError
             | first :: _ => Ok (outer_verts_2d ++ [first])
             end ;;
           Ok (map flat outer_verts_2d ++ map flat verts_2d)) ;;
      if face_accepted face then
        let extrude := if Rlt_dec 0 thickness then Some thickness else None in
        Ok (Some (objects_new name (mkMesh name face extrude)))
      else Ok None
  end.

(** The locals of [execute]: [ring_teeth], [effective_module_for_ring],
    [orbit_radius] and [rotation_ratio], each guarded as in the source. *)
Definition ring_teeth (props : PlanetaryGearProperties) : Z :=
  sun_teeth props + 2 * planet_teeth props.

Definition effective_module_for_ring (props : PlanetaryGearProperties)
  : result R :=
  let module := scale props in
  if (0 <? ring_teeth props)%Z
  then q <- py_div (4 * clearance props) (IZR (ring_teeth props)) ;;
       Ok (module + q)
  else Ok module.

Definition orbit_radius (props : PlanetaryGearProperties) : R :=
  (IZR (sun_teeth props + planet_teeth props) * scale props) / 2
  + clearance props.

Definition rotation_ratio (props : PlanetaryGearProperties) : result R :=
  if (0 <? planet_teeth props)%Z
  then q <- py_div (IZR (sun_teeth props)) (IZR (planet_teeth props)) ;;
       Ok (1 + q)
  else Ok 1.

(** One round of the planet loop of [execute]. *)
Definition place_planet
  (props : PlanetaryGearProperties) (template : BObject)
  (orbit_radius rotation_ratio : R) (i : Z) : result BObject :=
  angle <- py_div (2 * PI * IZR i) (IZR (num_planets props)) ;;
  Ok (mkObject ("PlanetGear_" ++ str (i + 1)) (ob_data template)
        (orbit_radius * cos angle, orbit_radius * sin angle, 0)
        (PI - angle * rotation_ratio)).

Definition opt_list {A : Type} (o : option A) : list A :=
  match o with
  | Some a => [a]
  | None => []
  end.

(** [execute]: the result is the list of the objects linked into the
    collection, in the order of linking. *)
Definition execute (props : PlanetaryGearProperties) : result (list BObject) :=
  let module := scale props in
  let clearance := clearance props in
  let ring_teeth := ring_teeth props in
  sun_gear <-
    create_gear_object "SunGear" (sun_teeth props) module false
      (thickness props) (pressure_angle props) 4 ;;
  sun_linked <-
    match sun_gear with
    | Some sun =>
        rot <- (if (0 <? sun_teeth props)%Z
                then py_div PI (IZR (sun_teeth props))
                else Ok 0) ;;
        Ok [mkObject (ob_name sun) (ob_data sun) (ob_location sun) rot]
    | None => Ok []
    end ;;
  effective_module_for_ring <- effective_module_for_ring props ;;
  ring_gear <-
    create_gear_object "RingGear" ring_teeth effective_module_for_ring true
      (thickness props) (pressure_angle props) (ring_margin props) ;;
  planet_gear_template <-
    create_gear_object "PlanetGearTemplate" (planet_teeth props) module false
      (thickness props) (pressure_angle props) 4 ;;
  planets <-
    match planet_gear_template with
    | Some template =>
        let orbit_radius := orbit_radius props in
        rotation_ratio <- rotation_ratio props ;;
        mapM (place_planet props template orbit_radius rotation_ratio)
             (range (num_planets props))
    | None => Ok []
    end ;;
  Ok (sun_linked ++ opt_list ring_gear ++ planets).

End Blender.

(** ** Notions used by the statements *)

(** Steps 5 to 7 of the builder, named for the statements below: the
    template tooth turned to each of the [num_teeth] slots, and the loop
    closed on its first point. *)
Definition replicate_tooth
  (num_teeth : Z) (tooth_points : list Point2D) (tooth_angle : R)
  : list Point2D :=
  flat_map (fun i =>
              let rotation := IZR i * tooth_angle in
              map (fun point => rotate_point_2d point rotation) tooth_points)
           (range num_teeth).

Definition close_loop (all_points : list Point2D) : list Point2D :=
  match all_points with
  | [] => all_points
  | first :: _ => all_points ++ [first]
  end.

Definition oriented (is_internal : bool) (all_points : list Point2D)
  : list Point2D :=
  if is_internal then rev all_points else all_points.

(** Twice the signed area of the polygon whose consecutive vertices are
    [pts] (the shoelace sum over consecutive pairs); on a closed outline
    the last pair is the closing edge. *)
Definition cross (p q : Point2D) : R := fst p * snd q - fst q * snd p.

Fixpoint shoelace (pts : list Point2D) : R :=
  match pts with
  | p :: (q :: _) as rest => cross p q + shoelace rest
  | _ => 0
  end.

Definition signed_area (pts : list Point2D) : R := shoelace pts / 2.

(** The defaults of the property group. *)
Definition default_props : PlanetaryGearProperties :=
  mkProps 32 16 6 20 0.05 0.2 4 0.0002.

(** Reflection in the x axis, the centre line of the template tooth, and
    the squared distance from the gear axis. *)
Definition mirror (p : Point2D) : Point2D := (fst p, - snd p).

Definition norm2 (p : Point2D) : R := fst p ^ 2 + snd p ^ 2.

(** The radii of [build_gear_verts] (its locals [pitch_radius],
    [base_radius], [outer_radius] and [root_radius]) as functions of the
    arguments, and one round of its two sampling loops. *)
Definition gear_pitch_radius (num_teeth : Z) (scale : R) : R :=
  (scale * IZR num_teeth) / 2.

Definition gear_base_radius (num_teeth : Z) (scale pressure_angle_deg : R) : R :=
  gear_pitch_radius num_teeth scale * cos (math_radians pressure_angle_deg).

Definition gear_outer_radius (num_teeth : Z) (scale : R) : R :=
  gear_pitch_radius num_teeth scale + scale.

Definition gear_root_radius (num_teeth : Z) (scale : R) : R :=
  gear_pitch_radius num_teeth scale - (scale * 1.25).

Definition tooth_sample
  (num_teeth : Z) (scale pressure_angle_deg angle_offset side : R) (i : Z)
  : result Point2D :=
  fraction <- py_div (IZR i) (IZR num_segments) ;;
  get_tooth_profile_point fraction (gear_root_radius num_teeth scale)
    (gear_base_radius num_teeth scale pressure_angle_deg)
    (gear_outer_radius num_teeth scale) angle_offset side.

(** The object one round of the planet loop links when [num_planets] and
    [planet_teeth] are positive (see [place_planets_ok]). *)
Definition placed_planet
  (props : PlanetaryGearProperties) (template : BObject) (i : Z) : BObject :=
  let angle := 2 * PI * IZR i / IZR (num_planets props) in
  mkObject ("PlanetGear_" ++ str (i + 1)) (ob_data template)
    (orbit_radius props * cos angle, orbit_radius props * sin angle, 0)
    (PI - angle * (1 + IZR (sun_teeth props) / IZR (planet_teeth props))).

(** The angle offset of the template tooth, as [build_gear_verts] computes
    it before anything else (its locals [half_tooth_thickness_angle] and
    [involute_angle_offset]). *)
Definition gear_angle_offset
  (num_teeth : Z) (scale pressure_angle_deg : R) : result R :=
  half_tooth_thickness_angle <-
    (if Rlt_dec 0 (gear_pitch_radius num_teeth scale)
     then py_div (scale * PI / 2) (gear_pitch_radius num_teeth scale)
     else Ok 0) ;;
  pitch_involute <-
    calculate_involute_angle
      (gear_base_radius num_teeth scale pressure_angle_deg)
      (gear_pitch_radius num_teeth scale) ;;
  Ok (- pitch_involute - half_tooth_thickness_angle / 2).

(** The hard limits the property group declares for its fields (the [min]
    and [max] of each property). *)
Definition in_declared_range (props : PlanetaryGearProperties) : Prop :=
  (4 <= sun_teeth props <= 200)%Z
  /\ (4 <= planet_teeth props <= 200)%Z
  /\ (1 <= num_planets props <= 20)%Z
  /\ 10 <= pressure_angle props <= 40
  /\ 0.001 <= scale props
  /\ 0.01 <= thickness props
  /\ 0.5 <= ring_margin props
  /\ 0 <= clearance props.

(** Points given by radius and angle, and lists of them that run
    counter-clockwise about the origin: from each point to the next the
    radii are not negative and the angle grows by at most a half turn
    ([turns_forward]), somewhere by a positive amount less than a half
    turn between points off the origin ([turns_strictly]). *)
Definition polar_point (rt : R * R) : Point2D := polar (fst rt) (snd rt).

Fixpoint turns_forward (l : list (R * R)) : Prop :=
  match l with
  | a :: (b :: _) as rest =>
      (0 <= fst a /\ 0 <= fst b /\ 0 <= snd b - snd a <= PI)
      /\ turns_forward rest
  | _ => True
  end.

Fixpoint turns_strictly (l : list (R * R)) : Prop :=
  match l with
  | a :: (b :: _) as rest =>
      (0 < fst a /\ 0 < fst b /\ 0 < snd b - snd a < PI)
      \/ turns_strictly rest
  | _ => False
  end.

(** The value of [calculate_involute_angle] for a positive base radius. *)
Definition involute (base_radius radius : R) : R :=
  if Rle_dec radius base_radius then 0
  else sqrt ((radius / base_radius) ^ 2 - 1) - acos (base_radius / radius).

(** The teeth of a gear do not overlap themselves or each other when each
    flank turns by at most a quarter of the angular pitch between the
    start circle and the pitch circle, and again between the pitch circle
    and the outer circle.  The three involute angles are those the source
    function returns. *)
Definition teeth_do_not_overlap
  (num_teeth : Z) (scale pressure_angle_deg : R) : Prop :=
  exists at_start at_pitch at_outer,
    calculate_involute_angle
      (gear_base_radius num_teeth scale pressure_angle_deg)
      (Rmax (gear_base_radius num_teeth scale pressure_angle_deg)
            (gear_root_radius num_teeth scale)) = Ok at_start
    /\ calculate_involute_angle
         (gear_base_radius num_teeth scale pressure_angle_deg)
         (gear_pitch_radius num_teeth scale) = Ok at_pitch
    /\ calculate_involute_angle
         (gear_base_radius num_teeth scale pressure_angle_deg)
         (gear_outer_radius num_teeth scale) = Ok at_outer
    /\ at_pitch - at_start <= PI / IZR num_teeth / 2
    /\ at_outer - at_pitch <= PI / IZR num_teeth / 2.

(** * Properties *)

(** ** The exception monad and the arithmetic primitives *)

Lemma py_div_ok (x y : R) : y <> 0 -> py_div x y = Ok (x / y).
Proof.
  intros Hy. unfold py_div. destruct (Req_dec_T y 0); [contradiction | reflexivity].
Qed.

Lemma py_div_zero (x : R) : py_div x 0 = Raise ZeroDivisionError.
Proof.
  unfold py_div. destruct (Req_dec_T 0 0); [reflexivity | contradiction].
Qed.

Lemma py_div_inv (x y q : R) : py_div x y = Ok q -> y <> 0 /\ q = x / y.
Proof.
  unfold py_div. destruct (Req_dec_T y 0); [discriminate |].
  intros H. injection H as <-. split; [assumption | reflexivity].
Qed.

Lemma math_sqrt_ok (x : R) : 0 <= x -> math_sqrt x = Ok (sqrt x).
Proof.
  intros Hx. unfold math_sqrt. destruct (Rlt_dec x 0); [lra | reflexivity].
Qed.

Lemma math_sqrt_neg (x : R) : x < 0 -> math_sqrt x = Raise ValueError.
Proof.
  intros Hx. unfold math_sqrt. destruct (Rlt_dec x 0); [reflexivity | lra].
Qed.

Lemma math_sqrt_inv (x s : R) : math_sqrt x = Ok s -> 0 <= x /\ s = sqrt x.
Proof.
  unfold math_sqrt. destruct (Rlt_dec x 0); [discriminate |].
  intros H. injection H as <-. split; [lra | reflexivity].
Qed.

Lemma math_acos_ok (x : R) : -1 <= x <= 1 -> math_acos x = Ok (acos x).
Proof.
  intros Hx. unfold math_acos.
  destruct (Rlt_dec x (-1)); [lra |]. destruct (Rlt_dec 1 x); [lra | reflexivity].
Qed.

Lemma bind_inv {A B : Type} (m : result A) (k : A -> result B) (b : B) :
  bind m k = Ok b -> exists a, m = Ok a /\ k a = Ok b.
Proof.
  destruct m as [a | e]; simpl; [| discriminate].
  intros H. exists a. split; [reflexivity | assumption].
Qed.

(** Splits a hypothesis [x <- m ;; k = Ok b] into its two steps. *)
Ltac bind_step H x Hx :=
  apply bind_inv in H; destruct H as [x [Hx H]].

Lemma mapM_length {A B : Type} (f : A -> result B) (xs : list A) (ys : list B) :
  mapM f xs = Ok ys -> List.length ys = List.length xs.
Proof.
  revert ys. induction xs as [| x xs IH]; intros ys H; simpl in H.
  - injection H as <-. reflexivity.
  - bind_step H y Hy. bind_step H ys' Hys. injection H as <-.
    simpl. f_equal. apply IH. assumption.
Qed.

Lemma mapM_ok {A B : Type} (f : A -> result B) (g : A -> B) (xs : list A) :
  (forall x, In x xs -> f x = Ok (g x)) -> mapM f xs = Ok (map g xs).
Proof.
  induction xs as [| x xs IH]; intros H; simpl.
  - reflexivity.
  - rewrite (H x (or_introl eq_refl)). simpl.
    rewrite IH by (intros y Hy; apply H; right; exact Hy). reflexivity.
Qed.

Lemma range_length (n : Z) : List.length (range n) = Z.to_nat n.
Proof. unfold range. rewrite length_map, length_seq. reflexivity. Qed.

Lemma range_In (n i : Z) : In i (range n) <-> (0 <= i < n)%Z.
Proof.
  unfold range. rewrite in_map_iff. split.
  - intros [k [<- Hk]]. apply in_seq in Hk. lia.
  - intros Hi. exists (Z.to_nat i). split; [lia |]. apply in_seq. lia.
Qed.

Lemma range_nonpos (n : Z) : (n <= 0)%Z -> range n = [].
Proof.
  intros Hn. unfold range. replace (Z.to_nat n) with 0%nat by lia. reflexivity.
Qed.

Lemma range_nth (n i : Z) :
  (0 <= i < n)%Z -> nth_error (range n) (Z.to_nat i) = Some i.
Proof.
  intros Hi. unfold range.
  rewrite nth_error_map, nth_error_seq.
  destruct (Nat.ltb_spec (Z.to_nat i) (Z.to_nat n)) as [_ | Hge]; [| lia].
  simpl. f_equal. lia.
Qed.

(** ** Involute math *)

Lemma calculate_involute_angle_clamped (base_radius radius : R) :
  radius <= base_radius -> calculate_involute_angle base_radius radius = Ok 0.
Proof.
  intros H. unfold calculate_involute_angle.
  destruct (Rle_dec radius base_radius); [reflexivity | contradiction].
Qed.

Lemma involute_ratio_bounds (base_radius radius : R) :
  0 < base_radius -> base_radius < radius ->
  0 < (radius / base_radius) ^ 2 - 1 /\ 0 < base_radius / radius < 1.
Proof.
  intros Hb Hr.
  assert (H1 : 1 < radius / base_radius).
  { apply Rmult_lt_reg_r with base_radius; [assumption |].
    unfold Rdiv. rewrite Rmult_assoc, Rinv_l by lra. lra. }
  assert (H2 : base_radius / radius < 1).
  { apply Rmult_lt_reg_r with radius; [lra |].
    unfold Rdiv. rewrite Rmult_assoc, Rinv_l by lra. lra. }
  assert (H3 : 0 < base_radius / radius).
  { apply Rdiv_lt_0_compat; lra. }
  repeat split; try assumption. nra.
Qed.

Lemma calculate_involute_angle_curve (base_radius radius : R) :
  0 < base_radius -> base_radius < radius ->
  calculate_involute_angle base_radius radius
  = Ok (sqrt ((radius / base_radius) ^ 2 - 1) - acos (base_radius / radius)).
Proof.
  intros Hb Hr.
  destruct (involute_ratio_bounds base_radius radius Hb Hr) as [Hs [Hc0 Hc1]].
  unfold calculate_involute_angle.
  destruct (Rle_dec radius base_radius); [lra |].
  rewrite py_div_ok by lra. simpl.
  rewrite math_sqrt_ok by lra. simpl.
  rewrite py_div_ok by lra. simpl.
  rewrite math_acos_ok by lra. reflexivity.
Qed.

(** C1: for a positive base radius, the involute angle is 0 at and below
    the base circle (exactly 0 on it) and
    sqrt((radius/base_radius)^2 - 1) - acos(base_radius/radius) above it. *)
Theorem involute_angle_spec (base_radius radius : R) :
  0 < base_radius ->
  (radius <= base_radius ->
   calculate_involute_angle base_radius radius = Ok 0)
  /\ (radius = base_radius ->
      calculate_involute_angle base_radius radius = Ok 0)
  /\ (base_radius < radius ->
      calculate_involute_angle base_radius radius
      = Ok (sqrt ((radius / base_radius) ^ 2 - 1) - acos (base_radius / radius))).
Proof.
  intros Hb. repeat split.
  - apply calculate_involute_angle_clamped.
  - intros ->. apply calculate_involute_angle_clamped. lra.
  - apply calculate_involute_angle_curve. assumption.
Qed.

Lemma involute_angle_spec_witness :
  calculate_involute_angle 1 1 = Ok 0
  /\ calculate_involute_angle 1 2 = Ok (sqrt ((2 / 1) ^ 2 - 1) - acos (1 / 2)).
Proof.
  destruct (involute_angle_spec 1 1 ltac:(lra)) as [_ [Heq _]].
  destruct (involute_angle_spec 1 2 ltac:(lra)) as [_ [_ Hgt]].
  split; [apply Heq; reflexivity | apply Hgt; lra].
Defined.

Lemma polar_norm (radius angle : R) :
  fst (polar radius angle) ^ 2 + snd (polar radius angle) ^ 2 = radius ^ 2.
Proof.
  unfold polar. simpl.
  pose proof (sin2_cos2 angle) as H. unfold Rsqr in H.
  replace (radius * cos angle * (radius * cos angle * 1)
           + radius * sin angle * (radius * sin angle * 1))
    with (radius * radius * (sin angle * sin angle + cos angle * cos angle))
    by ring.
  rewrite H. ring.
Qed.

(** When the involute angle is computed at all, the radius is not inside
    the base circle, whatever the sign of the base radius. *)
Lemma calculate_involute_angle_outside (base_radius radius a : R) :
  calculate_involute_angle base_radius radius = Ok a ->
  base_radius <= radius ->
  base_radius ^ 2 <= radius ^ 2.
Proof.
  unfold calculate_involute_angle.
  destruct (Rle_dec radius base_radius) as [Hle | Hgt]; intros H Hbr.
  - replace radius with base_radius by lra. lra.
  - bind_step H q Hq. bind_step H s Hs.
    apply py_div_inv in Hq. destruct Hq as [Hb0 ->].
    apply math_sqrt_inv in Hs. destruct Hs as [Hs _].
    replace (radius ^ 2)
      with ((radius / base_radius) ^ 2 * base_radius ^ 2) by (field; assumption).
    assert (0 <= base_radius ^ 2) by nra. nra.
Qed.

Lemma get_involute_point_ok (base_radius side angle_offset radius : R) :
  0 < base_radius ->
  exists a,
    calculate_involute_angle base_radius (Rmax radius base_radius) = Ok a
    /\ get_involute_point base_radius side angle_offset radius
       = Ok (polar (Rmax radius base_radius) (side * (a + angle_offset))).
Proof.
  intros Hb. unfold get_involute_point.
  assert (Hmax : (if Rlt_dec radius base_radius then base_radius else radius)
                 = Rmax radius base_radius).
  { unfold Rmax. destruct (Rlt_dec radius base_radius);
      destruct (Rle_dec radius base_radius); lra. }
  rewrite Hmax.
  destruct (Rle_dec (Rmax radius base_radius) base_radius) as [Hle | Hgt].
  - exists 0. rewrite calculate_involute_angle_clamped by assumption.
    split; reflexivity.
  - eexists. rewrite calculate_involute_angle_curve by lra.
    split; reflexivity.
Qed.

(** C10: the point returned by [get_involute_point] lies at distance
    max(radius, base_radius) from the origin, x^2 + y^2 = max(radius,
    base_radius)^2, and so never strictly inside the base circle. *)
Theorem involute_point_on_clamped_circle
  (base_radius side angle_offset radius : R) (p : Point2D) :
  get_involute_point base_radius side angle_offset radius = Ok p ->
  fst p ^ 2 + snd p ^ 2 = (Rmax radius base_radius) ^ 2
  /\ base_radius ^ 2 <= fst p ^ 2 + snd p ^ 2.
Proof.
  unfold get_involute_point. intros H. bind_step H a Ha.
  injection H as <-. rewrite polar_norm.
  destruct (Rlt_dec radius base_radius) as [Hlt | Hge].
  - rewrite Rmax_right by lra. split; lra.
  - rewrite Rmax_left by lra. split; [reflexivity |].
    apply (calculate_involute_angle_outside base_radius radius a Ha). lra.
Qed.

Lemma involute_point_on_clamped_circle_witness :
  fst (polar 2 (1 * (0 + 0))) ^ 2 + snd (polar 2 (1 * (0 + 0))) ^ 2
  = (Rmax 1 2) ^ 2
  /\ 2 ^ 2 <= fst (polar 2 (1 * (0 + 0))) ^ 2 + snd (polar 2 (1 * (0 + 0))) ^ 2.
Proof.
  apply (involute_point_on_clamped_circle 2 1 0 1).
  unfold get_involute_point.
  destruct (Rlt_dec 1 2); [| lra].
  rewrite calculate_involute_angle_clamped by lra. reflexivity.
Defined.

(** The involute function in its classical form: inv(alpha) = tan alpha -
    alpha, with alpha = acos(base_radius / radius) the pressure angle at
    [radius]. *)
Lemma involute_sqrt_is_tan (base_radius radius : R) :
  0 < base_radius -> base_radius < radius ->
  sqrt ((radius / base_radius) ^ 2 - 1) = tan (acos (base_radius / radius)).
Proof.
  intros Hb Hr.
  destruct (involute_ratio_bounds base_radius radius Hb Hr) as [Hs [Hc0 Hc1]].
  rewrite tan_acos by lra.
  set (x := base_radius / radius) in *.
  assert (Hx : 0 <= 1 - x²) by (unfold Rsqr; nra).
  apply sqrt_lem_1.
  - lra.
  - apply Rmult_le_pos; [apply sqrt_pos | left; apply Rinv_0_lt_compat; lra].
  - replace (sqrt (1 - x²) / x * (sqrt (1 - x²) / x))
      with ((sqrt (1 - x²) * sqrt (1 - x²)) / (x * x)) by (field; lra).
    rewrite sqrt_sqrt by assumption.
    unfold x, Rsqr. field. split; lra.
Qed.

Lemma pressure_angle_at_radius_bounds (base_radius radius : R) :
  0 < base_radius -> base_radius < radius ->
  0 < acos (base_radius / radius) < PI / 2.
Proof.
  intros Hb Hr.
  destruct (involute_ratio_bounds base_radius radius Hb Hr) as [_ [Hc0 Hc1]].
  destruct (acos_bound_lt (base_radius / radius)) as [Hlo Hhi]; [lra |].
  split; [assumption |].
  destruct (Rlt_dec (acos (base_radius / radius)) (PI / 2)) as [Hlt | Hge];
    [assumption |].
  exfalso.
  assert (Hcos : cos (acos (base_radius / radius)) <= 0).
  { apply cos_le_0; lra. }
  rewrite cos_acos in Hcos by lra. lra.
Qed.

Lemma pressure_angle_at_radius_increasing (base_radius r1 r2 : R) :
  0 < base_radius -> base_radius < r1 -> r1 < r2 ->
  acos (base_radius / r1) < acos (base_radius / r2).
Proof.
  intros Hb H1 H2.
  destruct (involute_ratio_bounds base_radius r1 Hb H1) as [_ [Ha0 Ha1]].
  destruct (involute_ratio_bounds base_radius r2 Hb ltac:(lra)) as [_ [Hb0 Hb1]].
  pose proof (acos_bound (base_radius / r1)) as [? ?].
  pose proof (acos_bound (base_radius / r2)) as [? ?].
  apply cos_decreasing_0; try assumption.
  rewrite !cos_acos by lra.
  unfold Rdiv. apply Rmult_lt_compat_l; [assumption |].
  apply Rinv_lt_contravar; [nra | assumption].
Qed.

Lemma tan_minus_id_increasing (a b : R) :
  0 < a -> a < b -> b < PI / 2 -> tan a - a < tan b - b.
Proof.
  intros Ha Hab Hb.
  destruct (MVT_cor2 tan (fun c => 1 + tan c ^ 2) a b Hab) as [c [Hc [Hac Hcb]]].
  - intros c [Hc1 Hc2].
    assert (Hrange : - PI / 2 < c < PI / 2) by lra.
    apply (derive_pt_eq_1 tan c _ (derivable_pt_tan c Hrange)).
    apply derive_pt_tan.
  - assert (Htan : 0 < tan c) by (apply tan_gt_0; lra).
    assert (0 < tan c ^ 2 * (b - a)).
    { apply Rmult_lt_0_compat; [| lra]. simpl. rewrite Rmult_1_r.
      apply Rmult_lt_0_compat; assumption. }
    lra.
Qed.

(** ** Shape of the gear outline *)

Lemma flat_map_length_const {A B : Type} (f : A -> list B) (k : nat) (xs : list A) :
  (forall x, List.length (f x) = k) ->
  List.length (flat_map f xs) = (k * List.length xs)%nat.
Proof.
  intros Hf. induction xs as [| x xs IH]; simpl.
  - lia.
  - rewrite length_app, Hf, IH. lia.
Qed.

Lemma replicate_tooth_length (n : Z) (tooth : list Point2D) (angle : R) :
  List.length (replicate_tooth n tooth angle)
  = (List.length tooth * Z.to_nat n)%nat.
Proof.
  unfold replicate_tooth.
  rewrite (flat_map_length_const _ (List.length tooth)).
  - rewrite range_length. reflexivity.
  - intros i. apply length_map.
Qed.

Lemma oriented_length (is_internal : bool) (l : list Point2D) :
  List.length (oriented is_internal l) = List.length l.
Proof. destruct is_internal; simpl; [apply length_rev | reflexivity]. Qed.

Lemma close_loop_length (l : list Point2D) :
  l <> [] -> List.length (close_loop l) = S (List.length l).
Proof.
  destruct l as [| p l]; [congruence |]. intros _.
  unfold close_loop. rewrite length_app. simpl. lia.
Qed.

Lemma close_loop_closed (l : list Point2D) :
  l <> [] -> exists first middle, close_loop l = first :: middle ++ [first].
Proof.
  destruct l as [| p l]; [congruence |]. intros _.
  exists p, l. reflexivity.
Qed.

(** Every run of the builder that returns has computed a template tooth of
    2 * num_segments + 4 points and a tooth angle, the same for both
    orientations, and returns the closed, oriented replication of it. *)
Lemma build_gear_verts_shape
  (num_teeth : Z) (scale : R) (is_internal : bool) (pressure_angle_deg : R)
  (pts : list Point2D) :
  build_gear_verts num_teeth scale is_internal pressure_angle_deg = Ok pts ->
  exists tooth_points tooth_angle,
    List.length tooth_points = Z.to_nat (2 * num_segments + 4)
    /\ forall internal,
        build_gear_verts num_teeth scale internal pressure_angle_deg
        = Ok (close_loop
                (oriented internal
                   (replicate_tooth num_teeth tooth_points tooth_angle))).
Proof.
  unfold build_gear_verts. intros H.
  bind_step H half Hhalf. bind_step H inv Hinv.
  bind_step H rs Hrs. bind_step H re Hre.
  bind_step H rising Hrising. bind_step H falling Hfalling.
  bind_step H angle Hangle. clear H.
  eexists. exists angle. split.
  2:{ intros internal. rewrite Hhalf. cbn [bind]. rewrite Hinv. cbn [bind].
      rewrite Hrs. cbn [bind]. rewrite Hre. cbn [bind].
      rewrite Hrising. cbn [bind]. rewrite Hfalling. cbn [bind].
      rewrite Hangle. cbn [bind]. reflexivity. }
  apply mapM_length in Hrising, Hfalling.
  simpl. rewrite !length_app, Hrising, Hfalling. reflexivity.
Qed.

Lemma mapM_total {A B : Type} (f : A -> result B) (xs : list A) :
  (forall x, In x xs -> exists y, f x = Ok y) -> exists ys, mapM f xs = Ok ys.
Proof.
  induction xs as [| x xs IH]; intros H; simpl.
  - exists []. reflexivity.
  - destruct (H x (or_introl eq_refl)) as [y Hy].
    destruct IH as [ys Hys]; [intros z Hz; apply H; right; exact Hz |].
    exists (y :: ys). rewrite Hy. simpl. rewrite Hys. reflexivity.
Qed.

Lemma calculate_involute_angle_total (base_radius radius : R) :
  0 < base_radius -> exists a, calculate_involute_angle base_radius radius = Ok a.
Proof.
  intros Hb. destruct (Rle_dec radius base_radius) as [Hle | Hgt].
  - exists 0. apply calculate_involute_angle_clamped. assumption.
  - eexists. apply calculate_involute_angle_curve; lra.
Qed.

Lemma get_tooth_profile_point_total
  (fraction root_radius base_radius outer_radius angle_offset side : R) :
  0 < base_radius ->
  exists p, get_tooth_profile_point fraction root_radius base_radius
              outer_radius angle_offset side = Ok p.
Proof.
  intros Hb. unfold get_tooth_profile_point.
  edestruct (get_involute_point_ok base_radius side angle_offset) as [a [_ Ha]];
    [exact Hb |].
  eexists. exact Ha.
Qed.

Lemma IZR_pos_neq (n : Z) : (1 <= n)%Z -> IZR n <> 0.
Proof.
  intros Hn. apply not_0_IZR. lia.
Qed.

(** The builder returns on every well-formed gear: at least one tooth, a
    positive module and a pressure angle with a positive cosine (below 90
    degrees). *)
Lemma build_gear_verts_total
  (num_teeth : Z) (scale : R) (is_internal : bool) (pressure_angle_deg : R) :
  (1 <= num_teeth)%Z -> 0 < scale -> 0 < cos (math_radians pressure_angle_deg) ->
  exists pts,
    build_gear_verts num_teeth scale is_internal pressure_angle_deg = Ok pts.
Proof.
  intros Hn Hs Hc.
  assert (Hn0 : IZR num_teeth <> 0) by (apply IZR_pos_neq; assumption).
  assert (Hn1 : 1 <= IZR num_teeth) by (apply IZR_le in Hn; exact Hn).
  assert (Hpitch : 0 < scale * IZR num_teeth / 2) by nra.
  assert (Hbase : 0 < scale * IZR num_teeth / 2 * cos (math_radians pressure_angle_deg))
    by (apply Rmult_lt_0_compat; assumption).
  unfold build_gear_verts.
  destruct (Rlt_dec 0 (scale * IZR num_teeth / 2)) as [_ | Hneg]; [| contradiction].
  rewrite py_div_ok by lra. cbn [bind].
  destruct (calculate_involute_angle_total _ (scale * IZR num_teeth / 2) Hbase)
    as [inv Hinv].
  rewrite Hinv. cbn [bind].
  assert (Hroot : forall (x : R) (y : R),
             exists r, (if Rlt_dec (scale * IZR num_teeth / 2 - scale * 1.25)
                             (scale * IZR num_teeth / 2
                              * cos (math_radians pressure_angle_deg))
                        then Ok x else py_div y (IZR num_teeth)) = Ok r).
  { intros x y. destruct (Rlt_dec _ _); [exists x; reflexivity |].
    rewrite py_div_ok by assumption. eexists. reflexivity. }
  destruct (Hroot (- inv - scale * PI / 2 / (scale * IZR num_teeth / 2) / 2) (- PI))
    as [rs ->]. cbn [bind].
  destruct (Hroot (- (- inv - scale * PI / 2 / (scale * IZR num_teeth / 2) / 2)) PI)
    as [re ->]. cbn [bind].
  assert (Hsample : forall side (xs : list Z),
            exists ys,
              mapM (fun i =>
                      fraction <- py_div (IZR i) (IZR num_segments) ;;
                      get_tooth_profile_point fraction
                        (scale * IZR num_teeth / 2 - scale * 1.25)
                        (scale * IZR num_teeth / 2
                         * cos (math_radians pressure_angle_deg))
                        (scale * IZR num_teeth / 2 + scale)
                        (- inv - scale * PI / 2 / (scale * IZR num_teeth / 2) / 2)
                        side) xs = Ok ys).
  { intros side xs. apply mapM_total. intros i _.
    rewrite py_div_ok by (apply IZR_pos_neq; unfold num_segments; lia). cbn [bind].
    apply get_tooth_profile_point_total. assumption. }
  destruct (Hsample 1 (range (num_segments + 1))) as [rising ->]. cbn [bind].
  destruct (Hsample (-1) (range_down num_segments)) as [falling ->]. cbn [bind].
  rewrite py_div_ok by assumption. cbn [bind].
  eexists. reflexivity.
Qed.

Lemma build_gear_verts_length
  (num_teeth : Z) (scale : R) (is_internal : bool) (pressure_angle_deg : R)
  (pts : list Point2D) :
  (1 <= num_teeth)%Z ->
  build_gear_verts num_teeth scale is_internal pressure_angle_deg = Ok pts ->
  Z.of_nat (List.length pts) = (num_teeth * (2 * num_segments + 4) + 1)%Z.
Proof.
  intros Hn H.
  destruct (build_gear_verts_shape _ _ _ _ _ H) as [tooth [angle [Hlen Hall]]].
  rewrite Hall in H. injection H as <-.
  assert (Hrep : List.length (oriented is_internal (replicate_tooth num_teeth tooth angle))
                 = (Z.to_nat (2 * num_segments + 4) * Z.to_nat num_teeth)%nat).
  { rewrite oriented_length, replicate_tooth_length, Hlen. reflexivity. }
  rewrite close_loop_length.
  - rewrite Hrep. unfold num_segments. lia.
  - intros Hnil. rewrite Hnil in Hrep. simpl in Hrep. unfold num_segments in Hrep. lia.
Qed.

(** The default pressure angle of 20 degrees. *)
Lemma cos_20_degrees : 1 / 2 < cos (math_radians 20) <= 1.
Proof.
  pose proof PI_RGT_0 as Hpi. split.
  - rewrite <- cos_PI3. unfold math_radians.
    apply cos_decreasing_1; lra.
  - apply COS_bound.
Qed.

(** C2 as stated fails: with 3 teeth the outline has 43 points, not
    3 * (2 * 5 + 3) + 1 = 40. *)
Lemma outline_point_count_not_13_per_tooth :
  exists pts,
    build_gear_verts 3 1 false 20 = Ok pts
    /\ List.length pts = 43%nat
    /\ Z.of_nat (List.length pts) <> (3 * (2 * num_segments + 3) + 1)%Z.
Proof.
  destruct (build_gear_verts_total 3 1 false 20) as [pts Hpts];
    [lia | lra | pose proof cos_20_degrees; lra |].
  exists pts. split; [exact Hpts |].
  pose proof (build_gear_verts_length 3 1 false 20 pts ltac:(lia) Hpts) as Hlen.
  unfold num_segments in *. split; lia.
Qed.

(** C2, amended: for tooth_count >= 3 the returned outline has
    tooth_count * (2 * segments + 4) points plus the closing point; each
    tooth contributes root-start, segments + 1 ascending samples,
    segments + 1 descending samples and root-end. *)
Theorem outline_point_count
  (num_teeth : Z) (scale : R) (is_internal : bool) (pressure_angle_deg : R)
  (pts : list Point2D) :
  (3 <= num_teeth)%Z ->
  build_gear_verts num_teeth scale is_internal pressure_angle_deg = Ok pts ->
  Z.of_nat (List.length pts) = (num_teeth * (2 * num_segments + 4) + 1)%Z.
Proof.
  intros Hn. apply build_gear_verts_length. lia.
Qed.

Lemma outline_point_count_witness :
  exists pts,
    build_gear_verts 3 1 true 20 = Ok pts
    /\ Z.of_nat (List.length pts) = (3 * (2 * num_segments + 4) + 1)%Z.
Proof.
  destruct (build_gear_verts_total 3 1 true 20) as [pts Hpts];
    [lia | lra | pose proof cos_20_degrees; lra |].
  exists pts. split; [exact Hpts |].
  apply (outline_point_count 3 1 true 20 pts); [lia | exact Hpts].
Defined.

Lemma build_gear_verts_nonempty_ring
  (num_teeth : Z) (tooth : list Point2D) (angle : R) (is_internal : bool) :
  (1 <= num_teeth)%Z -> List.length tooth = Z.to_nat (2 * num_segments + 4) ->
  oriented is_internal (replicate_tooth num_teeth tooth angle) <> [].
Proof.
  intros Hn Hlen Hnil.
  assert (H : List.length (oriented is_internal (replicate_tooth num_teeth tooth angle))
              = 0%nat) by (rewrite Hnil; reflexivity).
  rewrite oriented_length, replicate_tooth_length, Hlen in H.
  unfold num_segments in H. lia.
Qed.

(** C3: for tooth_count >= 3 the returned outline is a closed loop: its
    first and last points are the same point. *)
Theorem outline_closed
  (num_teeth : Z) (scale : R) (is_internal : bool) (pressure_angle_deg : R)
  (pts : list Point2D) :
  (3 <= num_teeth)%Z ->
  build_gear_verts num_teeth scale is_internal pressure_angle_deg = Ok pts ->
  exists first middle,
    pts = first :: middle ++ [first]
    /\ hd_error pts = Some first
    /\ last pts first = first.
Proof.
  intros Hn H.
  destruct (build_gear_verts_shape _ _ _ _ _ H) as [tooth [angle [Hlen Hall]]].
  rewrite Hall in H. injection H as <-.
  destruct (close_loop_closed
              (oriented is_internal (replicate_tooth num_teeth tooth angle)))
    as [first [middle Hclosed]].
  - apply build_gear_verts_nonempty_ring; [lia | assumption].
  - exists first, middle. rewrite Hclosed. split; [reflexivity |].
    split; [reflexivity |].
    change (first :: middle ++ [first]) with ((first :: middle) ++ [first]).
    apply last_last.
Qed.

Lemma outline_closed_witness :
  exists pts first middle,
    build_gear_verts 3 1 false 20 = Ok pts
    /\ pts = first :: middle ++ [first]
    /\ hd_error pts = Some first
    /\ last pts first = first.
Proof.
  destruct (build_gear_verts_total 3 1 false 20) as [pts Hpts];
    [lia | lra | pose proof cos_20_degrees; lra |].
  destruct (outline_closed 3 1 false 20 pts ltac:(lia) Hpts)
    as [first [middle H]].
  exists pts, first, middle. split; [exact Hpts | exact H].
Defined.

(** ** Winding *)

Lemma cross_antisym (p q : Point2D) : cross q p = - cross p q.
Proof. unfold cross. ring. Qed.

Lemma shoelace_snoc (l : list Point2D) (a b : Point2D) :
  shoelace ((l ++ [a]) ++ [b]) = shoelace (l ++ [a]) + cross a b.
Proof.
  induction l as [| p l IH].
  - simpl. ring.
  - destruct l as [| q l].
    + simpl. ring.
    + change (shoelace (p :: ((q :: l) ++ [a]) ++ [b])
              = shoelace (p :: (q :: l) ++ [a]) + cross a b).
      change (cross p q + shoelace (((q :: l) ++ [a]) ++ [b])
              = cross p q + shoelace ((q :: l) ++ [a]) + cross a b).
      rewrite IH. ring.
Qed.

Lemma shoelace_rev (l : list Point2D) : shoelace (rev l) = - shoelace l.
Proof.
  induction l as [| p l IH].
  - simpl. ring.
  - destruct l as [| q l].
    + simpl. ring.
    + change (shoelace (rev (q :: l) ++ [p]) = - (cross p q + shoelace (q :: l))).
      change (rev (q :: l)) with (rev l ++ [q]) in *.
      rewrite shoelace_snoc, IH, cross_antisym. ring.
Qed.

Lemma shoelace_close_loop (first last_pt : Point2D) (l : list Point2D) :
  hd_error l = Some first -> hd_error (rev l) = Some last_pt ->
  shoelace (close_loop l) = shoelace l + cross last_pt first.
Proof.
  intros Hfirst Hlast.
  destruct l as [| p l]; [discriminate |].
  injection Hfirst as ->.
  unfold close_loop.
  destruct (exists_last (l := first :: l)) as [body [z Hz]]; [discriminate |].
  rewrite Hz in *. rewrite rev_unit in Hlast. injection Hlast as ->.
  apply shoelace_snoc.
Qed.

Lemma close_loop_rev_area (l : list Point2D) :
  shoelace (close_loop (rev l)) = - shoelace (close_loop l).
Proof.
  destruct l as [| p l]; [simpl; ring |].
  destruct (exists_last (l := p :: l)) as [body [z Hz]]; [discriminate |].
  rewrite (shoelace_close_loop p z (p :: l)).
  - rewrite (shoelace_close_loop z p (rev (p :: l))).
    + rewrite shoelace_rev, (cross_antisym z p). ring.
    + rewrite Hz, rev_unit. reflexivity.
    + rewrite rev_involutive. reflexivity.
  - reflexivity.
  - rewrite Hz, rev_unit. reflexivity.
Qed.

(** ** Tooth counts below one *)

Lemma if_Rlt_true {A : Type} (x y : R) (a b : A) :
  x < y -> (if Rlt_dec x y then a else b) = a.
Proof. intros H. destruct (Rlt_dec x y); [reflexivity | contradiction]. Qed.

Lemma if_Rlt_false {A : Type} (x y : R) (a b : A) :
  ~ x < y -> (if Rlt_dec x y then a else b) = b.
Proof. intros H. destruct (Rlt_dec x y); [contradiction | reflexivity]. Qed.

Lemma if_Rle_false {A : Type} (x y : R) (a b : A) :
  ~ x <= y -> (if Rle_dec x y then a else b) = b.
Proof. intros H. destruct (Rle_dec x y); [contradiction | reflexivity]. Qed.

(** With no tooth to replicate the outline is empty and nothing is
    appended to close it. *)
Lemma build_gear_verts_no_teeth
  (num_teeth : Z) (scale : R) (is_internal : bool) (pressure_angle_deg : R)
  (pts : list Point2D) :
  (num_teeth <= 0)%Z ->
  build_gear_verts num_teeth scale is_internal pressure_angle_deg = Ok pts ->
  pts = [].
Proof.
  intros Hn H.
  destruct (build_gear_verts_shape _ _ _ _ _ H) as [tooth [angle [_ Hall]]].
  rewrite Hall in H. injection H as <-.
  unfold replicate_tooth. rewrite range_nonpos by assumption.
  destruct is_internal; reflexivity.
Qed.

(** The first sample of a tooth face sits on the start radius. *)
Lemma sample_0 (root_radius base_radius outer_radius angle_offset side : R) :
  root_radius <= base_radius ->
  (fraction <- py_div (IZR 0) (IZR num_segments) ;;
   get_tooth_profile_point fraction root_radius base_radius outer_radius
     angle_offset side)
  = Ok (polar ((1 - 0 / 5) * base_radius + 0 / 5 * outer_radius)
          (side * (0 + angle_offset))).
Proof.
  intros Hroot. unfold num_segments. rewrite py_div_ok by lra. cbn [bind].
  unfold get_tooth_profile_point, get_involute_point.
  rewrite Rmax_left by lra.
  rewrite if_Rlt_false by lra.
  rewrite calculate_involute_angle_clamped by lra. reflexivity.
Qed.

(** C9: at num_teeth = -1, scale = 1, pressure angle 20 the builder does
    not return the empty list: the second sample of the template tooth
    takes the square root of a negative number and [ValueError] is raised
    before the replication loop is reached. *)
Theorem build_gear_verts_minus_one_raises :
  build_gear_verts (-1) 1 false 20 = Raise ValueError.
Proof.
  pose proof cos_20_degrees as Hc.
  unfold build_gear_verts.
  set (c := cos (math_radians 20)) in *.
  rewrite if_Rlt_false by lra. cbn [bind].
  rewrite calculate_involute_angle_clamped by lra. cbn [bind].
  rewrite !if_Rlt_true by lra. cbn [bind].
  change (range (num_segments + 1)) with [0; 1; 2; 3; 4; 5]%Z.
  cbn [mapM].
  rewrite sample_0 by lra. cbn [bind].
  unfold num_segments at 1. rewrite py_div_ok by lra. cbn [bind].
  unfold get_tooth_profile_point, get_involute_point.
  rewrite Rmax_left by lra.
  rewrite if_Rlt_false by lra.
  unfold calculate_involute_angle.
  rewrite if_Rle_false by lra.
  rewrite py_div_ok by lra. cbn [bind].
  rewrite math_sqrt_neg; [reflexivity |].
  match goal with
  | |- ?q ^ 2 - 1 < 0 =>
      assert (Hq : q = (4 * c - 1) / (5 * c)) by (field; lra);
      rewrite Hq; clear Hq
  end.
  assert (Hlo : -1 < (4 * c - 1) / (5 * c)).
  { apply Rmult_lt_reg_r with (5 * c); [lra |].
    unfold Rdiv. rewrite Rmult_assoc, Rinv_l by lra. lra. }
  assert (Hhi : (4 * c - 1) / (5 * c) < 1).
  { apply Rmult_lt_reg_r with (5 * c); [lra |].
    unfold Rdiv. rewrite Rmult_assoc, Rinv_l by lra. lra. }
  nra.
Qed.

Lemma py_div_by_zero (x y : R) : y = 0 -> py_div x y = Raise ZeroDivisionError.
Proof. intros ->. apply py_div_zero. Qed.

(** A zero tooth count always ends in a division by zero: in the root
    angle when the module is not positive, otherwise in the second sample
    of the template tooth, whose base radius is 0. *)
Lemma build_gear_verts_zero_teeth
  (scale : R) (is_internal : bool) (pressure_angle_deg : R) :
  build_gear_verts 0 scale is_internal pressure_angle_deg
  = Raise ZeroDivisionError.
Proof.
  unfold build_gear_verts.
  set (c := cos (math_radians pressure_angle_deg)).
  rewrite if_Rlt_false by lra. cbn [bind].
  rewrite calculate_involute_angle_clamped by lra. cbn [bind].
  destruct (Rlt_dec (scale * 0 / 2 - scale * 1.25) (scale * 0 / 2 * c))
    as [Hroot | Hroot]; cbn [bind].
  - change (range (num_segments + 1)) with [0; 1; 2; 3; 4; 5]%Z.
    cbn [mapM].
    rewrite sample_0 by lra. cbn [bind].
    unfold num_segments at 1. rewrite py_div_ok by lra. cbn [bind].
    unfold get_tooth_profile_point, get_involute_point.
    rewrite Rmax_left by lra.
    rewrite if_Rlt_false by lra.
    unfold calculate_involute_angle.
    rewrite if_Rle_false by lra.
    rewrite py_div_by_zero by lra. reflexivity.
  - rewrite py_div_zero. reflexivity.
Qed.

Lemma get_involute_point_clamped (base_radius side angle_offset radius : R) :
  radius <= base_radius ->
  get_involute_point base_radius side angle_offset radius
  = Ok (polar base_radius (side * (0 + angle_offset))).
Proof.
  intros Hle. unfold get_involute_point.
  destruct (Rlt_dec radius base_radius) as [Hlt | Hge].
  - rewrite calculate_involute_angle_clamped by lra. reflexivity.
  - rewrite calculate_involute_angle_clamped by lra.
    replace radius with base_radius by lra. reflexivity.
Qed.

(** With a zero module every radius is 0 and the template tooth is
    computed without error: a negative tooth count then yields the empty
    outline. *)
Lemma build_gear_verts_zero_scale
  (num_teeth : Z) (is_internal : bool) (pressure_angle_deg : R) :
  (num_teeth < 0)%Z ->
  build_gear_verts num_teeth 0 is_internal pressure_angle_deg = Ok [].
Proof.
  intros Hn.
  assert (Hn0 : IZR num_teeth <> 0) by (apply not_0_IZR; lia).
  assert (Hret : exists pts,
             build_gear_verts num_teeth 0 is_internal pressure_angle_deg = Ok pts).
  { unfold build_gear_verts.
    set (c := cos (math_radians pressure_angle_deg)).
    rewrite if_Rlt_false by lra. cbn [bind].
    rewrite calculate_involute_angle_clamped by lra. cbn [bind].
    rewrite !if_Rlt_false by lra.
    rewrite !py_div_ok by assumption. cbn [bind].
    assert (Hsample : forall side (xs : list Z),
              exists ys,
                mapM (fun i =>
                        fraction <- py_div (IZR i) (IZR num_segments) ;;
                        get_tooth_profile_point fraction
                          (0 * IZR num_teeth / 2 - 0 * 1.25)
                          (0 * IZR num_teeth / 2 * c)
                          (0 * IZR num_teeth / 2 + 0)
                          (- 0 - 0 / 2) side) xs = Ok ys).
    { intros side xs. apply mapM_total. intros i _.
      unfold num_segments. rewrite py_div_ok by lra. cbn [bind].
      unfold get_tooth_profile_point.
      rewrite get_involute_point_clamped.
      - eexists. reflexivity.
      - rewrite Rmax_left by lra. lra. }
    destruct (Hsample 1 (range (num_segments + 1))) as [rising ->]. cbn [bind].
    destruct (Hsample (-1) (range_down num_segments)) as [falling ->]. cbn [bind].
    eexists. reflexivity. }
  destruct Hret as [pts Hpts]. rewrite Hpts. f_equal.
  apply (build_gear_verts_no_teeth num_teeth 0 is_internal pressure_angle_deg);
    [lia | assumption].
Qed.

(** ** Gear objects *)

Lemma create_gear_object_propagates
  (face_accepted : list Point3D -> bool) (name : string) (num_teeth : Z)
  (scale : R) (is_internal : bool) (thickness pressure_angle_deg ring_margin : R)
  (e : PyExn) :
  build_gear_verts num_teeth scale is_internal pressure_angle_deg = Raise e ->
  create_gear_object face_accepted name num_teeth scale is_internal thickness
    pressure_angle_deg ring_margin = Raise e.
Proof.
  intros H. unfold create_gear_object. rewrite H. reflexivity.
Qed.

Lemma create_gear_object_empty_outline
  (face_accepted : list Point3D -> bool) (name : string) (num_teeth : Z)
  (scale : R) (is_internal : bool) (thickness pressure_angle_deg ring_margin : R) :
  build_gear_verts num_teeth scale is_internal pressure_angle_deg = Ok [] ->
  create_gear_object face_accepted name num_teeth scale is_internal thickness
    pressure_angle_deg ring_margin = Ok None.
Proof.
  intros H. unfold create_gear_object. rewrite H. reflexivity.
Qed.

(** A gear object is only ever made from at least one tooth. *)
Lemma create_gear_object_some_teeth
  (face_accepted : list Point3D -> bool) (name : string) (num_teeth : Z)
  (scale : R) (is_internal : bool) (thickness pressure_angle_deg ring_margin : R)
  (gear : BObject) :
  create_gear_object face_accepted name num_teeth scale is_internal thickness
    pressure_angle_deg ring_margin = Ok (Some gear) ->
  (1 <= num_teeth)%Z.
Proof.
  intros H. destruct (Z_le_gt_dec num_teeth 0) as [Hle | Hgt]; [| lia].
  exfalso. unfold create_gear_object in H.
  bind_step H verts Hverts.
  apply build_gear_verts_no_teeth in Hverts; [| assumption].
  subst verts. discriminate.
Qed.

(** C4 as stated fails: a zero tooth count is not turned away before the
    outline is built; the builder runs and its division by zero comes out
    of [create_gear_object]. *)
Lemma zero_teeth_not_rejected_up_front :
  create_gear_object (fun _ => true) "SunGear" 0 1 false 1 20 4
  = Raise ZeroDivisionError
  /\ create_gear_object (fun _ => true) "SunGear" 0 1 false 1 20 4 <> Ok None.
Proof.
  assert (H : create_gear_object (fun _ => true) "SunGear" 0 1 false 1 20 4
              = Raise ZeroDivisionError).
  { apply create_gear_object_propagates. apply build_gear_verts_zero_teeth. }
  split; [exact H | rewrite H; discriminate].
Qed.

(** C4, amended: for tooth_count <= 0 the outline builder is run first (no
    validation precedes it); gear creation never returns an object, and
    whenever the builder returns, its outline is empty and creation yields
    no object. *)
Theorem no_gear_without_teeth
  (face_accepted : list Point3D -> bool) (name : string) (num_teeth : Z)
  (scale : R) (is_internal : bool) (thickness pressure_angle_deg ring_margin : R) :
  (num_teeth <= 0)%Z ->
  (forall gear,
      create_gear_object face_accepted name num_teeth scale is_internal
        thickness pressure_angle_deg ring_margin <> Ok (Some gear))
  /\ (forall outline,
         build_gear_verts num_teeth scale is_internal pressure_angle_deg
         = Ok outline ->
         outline = []
         /\ create_gear_object face_accepted name num_teeth scale is_internal
              thickness pressure_angle_deg ring_margin = Ok None).
Proof.
  intros Hn. split.
  - intros gear H. apply create_gear_object_some_teeth in H. lia.
  - intros outline H.
    assert (Hnil : outline = [])
      by (apply build_gear_verts_no_teeth in H; assumption).
    subst outline. split; [reflexivity |].
    apply create_gear_object_empty_outline. assumption.
Qed.

Lemma no_gear_without_teeth_witness :
  build_gear_verts (-1) 0 false 20 = Ok []
  /\ create_gear_object (fun _ => true) "SunGear" (-1) 0 false 1 20 4 = Ok None.
Proof.
  pose proof (build_gear_verts_zero_scale (-1) false 20 ltac:(lia)) as Hbuild.
  split; [exact Hbuild |].
  destruct (no_gear_without_teeth (fun _ => true) "SunGear" (-1) 0 false 1 20 4
              ltac:(lia)) as [_ Hnone].
  apply (Hnone [] Hbuild).
Defined.

Lemma outer_ring_total (outer_radius : R) (num_outer_verts : Z) :
  exists ys,
    mapM (fun i =>
            a <- py_div (2 * PI * IZR i) (IZR num_outer_verts) ;;
            Ok (polar outer_radius a))
         (range num_outer_verts) = Ok ys
    /\ List.length ys = Z.to_nat num_outer_verts.
Proof.
  destruct (mapM_total
              (fun i =>
                 a <- py_div (2 * PI * IZR i) (IZR num_outer_verts) ;;
                 Ok (polar outer_radius a))
              (range num_outer_verts)) as [ys Hys].
  - intros i Hi. apply range_In in Hi.
    rewrite py_div_ok by (apply IZR_pos_neq; lia). cbn [bind].
    eexists. reflexivity.
  - exists ys. split; [assumption |].
    apply mapM_length in Hys. rewrite Hys. apply range_length.
Qed.

(** On a well-formed gear, creation returns: an object when the host
    accepts the face, no object otherwise. *)
Lemma create_gear_object_total
  (face_accepted : list Point3D -> bool) (name : string) (num_teeth : Z)
  (scale : R) (is_internal : bool) (thickness pressure_angle_deg ring_margin : R) :
  (1 <= num_teeth)%Z -> 0 < scale -> 0 < cos (math_radians pressure_angle_deg) ->
  exists face,
    create_gear_object face_accepted name num_teeth scale is_internal thickness
      pressure_angle_deg ring_margin
    = Ok (if face_accepted face
          then Some (objects_new name
                       (mkMesh name face
                          (if Rlt_dec 0 thickness then Some thickness else None)))
          else None).
Proof.
  intros Hn Hs Hc.
  destruct (build_gear_verts_total num_teeth scale is_internal pressure_angle_deg
              Hn Hs Hc) as [pts Hpts].
  pose proof (build_gear_verts_length _ _ _ _ _ Hn Hpts) as Hlen.
  unfold create_gear_object. rewrite Hpts. cbn [bind].
  destruct pts as [| p pts]; [simpl in Hlen; unfold num_segments in Hlen; lia |].
  destruct is_internal; cbn [negb bind].
  - destruct (outer_ring_total
                (scale * IZR num_teeth / 2 + scale * 2 + scale * ring_margin)
                (Z.max (num_teeth * 2) 64)) as [ys [Hys Hylen]].
    rewrite Hys. cbn [bind].
    destruct ys as [| y ys]; [simpl in Hylen; lia |].
    cbv beta iota delta [bind].
    match goal with
    | |- context [face_accepted ?f] =>
        exists f; destruct (face_accepted f); reflexivity
    end.
  - exists (map flat (p :: pts)).
    destruct (face_accepted (map flat (p :: pts))); reflexivity.
Qed.

(** ** Planetary layout *)

Lemma effective_module_for_ring_meshing (props : PlanetaryGearProperties) :
  (1 <= ring_teeth props)%Z ->
  effective_module_for_ring props
  = Ok (scale props + 4 * clearance props / IZR (ring_teeth props)).
Proof.
  intros Hring. unfold effective_module_for_ring.
  destruct (Z.ltb_spec 0 (ring_teeth props)) as [_ | Hle]; [| lia].
  rewrite py_div_ok by (apply IZR_pos_neq; assumption). reflexivity.
Qed.

Lemma rotation_ratio_meshing (props : PlanetaryGearProperties) :
  (1 <= planet_teeth props)%Z ->
  rotation_ratio props
  = Ok (1 + IZR (sun_teeth props) / IZR (planet_teeth props)).
Proof.
  intros Hplanet. unfold rotation_ratio.
  destruct (Z.ltb_spec 0 (planet_teeth props)) as [_ | Hle]; [| lia].
  rewrite py_div_ok by (apply IZR_pos_neq; assumption). reflexivity.
Qed.

Lemma place_planet_ok
  (props : PlanetaryGearProperties) (template : BObject) (orbit ratio : R) (i : Z) :
  (1 <= num_planets props)%Z ->
  place_planet props template orbit ratio i
  = Ok (mkObject ("PlanetGear_" ++ str (i + 1)) (ob_data template)
          (orbit * cos (2 * PI * IZR i / IZR (num_planets props)),
           orbit * sin (2 * PI * IZR i / IZR (num_planets props)), 0)
          (PI - 2 * PI * IZR i / IZR (num_planets props) * ratio)).
Proof.
  intros Hn. unfold place_planet.
  rewrite py_div_ok by (apply IZR_pos_neq; assumption). reflexivity.
Qed.

Lemma place_planets_ok
  (props : PlanetaryGearProperties) (template : BObject) (orbit ratio : R) :
  mapM (place_planet props template orbit ratio) (range (num_planets props))
  = Ok (map (fun i =>
               mkObject ("PlanetGear_" ++ str (i + 1)) (ob_data template)
                 (orbit * cos (2 * PI * IZR i / IZR (num_planets props)),
                  orbit * sin (2 * PI * IZR i / IZR (num_planets props)), 0)
                 (PI - 2 * PI * IZR i / IZR (num_planets props) * ratio))
            (range (num_planets props))).
Proof.
  apply mapM_ok. intros i Hi. apply range_In in Hi.
  apply place_planet_ok. lia.
Qed.

(** The three gears [execute] asks for, and what it links. *)
Lemma execute_inv
  (face_accepted : list Point3D -> bool) (props : PlanetaryGearProperties)
  (objs : list BObject) :
  execute face_accepted props = Ok objs ->
  exists sun_gear sun_linked module_for_ring ring_gear template planets,
    create_gear_object face_accepted "SunGear" (sun_teeth props) (scale props)
      false (thickness props) (pressure_angle props) 4 = Ok sun_gear
    /\ effective_module_for_ring props = Ok module_for_ring
    /\ create_gear_object face_accepted "RingGear" (ring_teeth props)
         module_for_ring true (thickness props) (pressure_angle props)
         (ring_margin props) = Ok ring_gear
    /\ create_gear_object face_accepted "PlanetGearTemplate"
         (planet_teeth props) (scale props) false (thickness props)
         (pressure_angle props) 4 = Ok template
    /\ match template with
       | Some t =>
           exists ratio,
             rotation_ratio props = Ok ratio
             /\ mapM (place_planet props t (orbit_radius props) ratio)
                  (range (num_planets props)) = Ok planets
       | None => planets = []
       end
    /\ objs = sun_linked ++ opt_list ring_gear ++ planets.
Proof.
  unfold execute. intros H.
  bind_step H sun_gear Hsun. bind_step H sun_linked Hlinked.
  bind_step H module_for_ring Hmodule. bind_step H ring_gear Hring.
  bind_step H template Htemplate. bind_step H planets Hplanets.
  injection H as <-.
  exists sun_gear, sun_linked, module_for_ring, ring_gear, template, planets.
  repeat (split; [assumption |]).
  split; [| reflexivity].
  destruct template as [t |].
  - bind_step Hplanets ratio Hratio. exists ratio. split; assumption.
  - injection Hplanets as <-. reflexivity.
Qed.

(** C6: for num_planets >= 1 and planet_teeth >= 1, planet i stands at the
    angle 2 * pi * i / num_planets (consecutive planets 2 * pi /
    num_planets apart), at orbit_radius * (cos, sin) of that angle with
    z = 0, where orbit_radius = (sun_teeth + planet_teeth) * module / 2 +
    clearance, turned about its own axis by
    pi - angle * (1 + sun_teeth / planet_teeth). *)
Theorem planet_placement
  (face_accepted : list Point3D -> bool) (props : PlanetaryGearProperties)
  (objs : list BObject) (template : BObject) :
  (1 <= num_planets props)%Z -> (1 <= planet_teeth props)%Z ->
  execute face_accepted props = Ok objs ->
  create_gear_object face_accepted "PlanetGearTemplate" (planet_teeth props)
    (scale props) false (thickness props) (pressure_angle props) 4
  = Ok (Some template) ->
  exists others planets,
    objs = others ++ planets
    /\ List.length planets = Z.to_nat (num_planets props)
    /\ forall i, (0 <= i < num_planets props)%Z ->
         let angle := 2 * PI * IZR i / IZR (num_planets props) in
         let orbit :=
           IZR (sun_teeth props + planet_teeth props) * scale props / 2
           + clearance props in
         nth_error planets (Z.to_nat i)
         = Some (mkObject ("PlanetGear_" ++ str (i + 1)) (ob_data template)
                   (orbit * cos angle, orbit * sin angle, 0)
                   (PI - angle
                         * (1 + IZR (sun_teeth props) / IZR (planet_teeth props))))
         /\ 2 * PI * IZR (i + 1) / IZR (num_planets props) - angle
            = 2 * PI / IZR (num_planets props).
Proof.
  intros Hn Hplanet H Htemplate.
  destruct (execute_inv _ _ _ H)
    as (sun_gear & sun_linked & module_for_ring & ring_gear & template' & planets
        & _ & _ & _ & Htemplate' & Hplanets & ->).
  rewrite Htemplate in Htemplate'. injection Htemplate' as <-.
  destruct Hplanets as [ratio [Hratio Hplanets]].
  rewrite rotation_ratio_meshing in Hratio by assumption.
  injection Hratio as <-.
  rewrite place_planets_ok in Hplanets. injection Hplanets as <-.
  exists (sun_linked ++ opt_list ring_gear). eexists.
  split; [apply app_assoc |].
  split; [rewrite length_map; apply range_length |].
  intros i Hi angle orbit. split.
  - rewrite nth_error_map, range_nth by assumption. reflexivity.
  - unfold angle. rewrite plus_IZR. field. apply IZR_pos_neq. assumption.
Qed.

(** [execute] returns on every well-formed configuration. *)
Lemma execute_total
  (face_accepted : list Point3D -> bool) (props : PlanetaryGearProperties) :
  (1 <= sun_teeth props)%Z -> (1 <= planet_teeth props)%Z ->
  0 < scale props -> 0 <= clearance props ->
  0 < cos (math_radians (pressure_angle props)) ->
  exists objs, execute face_accepted props = Ok objs.
Proof.
  intros Hsun Hplanet Hscale Hclear Hcos.
  assert (Hring : (1 <= ring_teeth props)%Z) by (unfold ring_teeth; lia).
  assert (Hmodule : 0 < scale props
                        + 4 * clearance props / IZR (ring_teeth props)).
  { assert (0 < IZR (ring_teeth props)) by (apply IZR_lt; lia).
    assert (0 <= 4 * clearance props / IZR (ring_teeth props)).
    { apply Rmult_le_pos; [lra | left; apply Rinv_0_lt_compat; assumption]. }
    lra. }
  unfold execute.
  destruct (create_gear_object_total face_accepted "SunGear" (sun_teeth props)
              (scale props) false (thickness props) (pressure_angle props) 4
              Hsun Hscale Hcos) as [sun_face ->]. cbn [bind].
  assert (Hlinked : exists linked,
             match
               (if face_accepted sun_face
                then Some (objects_new "SunGear"
                             (mkMesh "SunGear" sun_face
                                (if Rlt_dec 0 (thickness props)
                                 then Some (thickness props) else None)))
                else None)
             with
             | Some sun =>
                 rot <- (if (0 <? sun_teeth props)%Z
                         then py_div PI (IZR (sun_teeth props))
                         else Ok 0) ;;
                 Ok [mkObject (ob_name sun) (ob_data sun) (ob_location sun) rot]
             | None => Ok []
             end = Ok linked).
  { destruct (face_accepted sun_face); [| exists []; reflexivity].
    destruct (Z.ltb_spec 0 (sun_teeth props)) as [_ | Hle]; [| lia].
    rewrite py_div_ok by (apply IZR_pos_neq; assumption).
    eexists. reflexivity. }
  destruct Hlinked as [linked ->]. cbn [bind].
  rewrite effective_module_for_ring_meshing by assumption. cbn [bind].
  destruct (create_gear_object_total face_accepted "RingGear" (ring_teeth props)
              (scale props + 4 * clearance props / IZR (ring_teeth props))
              true (thickness props) (pressure_angle props) (ring_margin props)
              Hring Hmodule Hcos) as [ring_face ->]. cbn [bind].
  destruct (create_gear_object_total face_accepted "PlanetGearTemplate"
              (planet_teeth props) (scale props) false (thickness props)
              (pressure_angle props) 4 Hplanet Hscale Hcos)
    as [planet_face ->]. cbn [bind].
  destruct (face_accepted planet_face).
  - rewrite rotation_ratio_meshing by assumption. cbn [bind].
    rewrite place_planets_ok. cbn [bind]. eexists. reflexivity.
  - cbn [bind]. eexists. reflexivity.
Qed.

Lemma default_props_run :
  exists objs, execute (fun _ => true) default_props = Ok objs.
Proof.
  apply execute_total; simpl; try lia; try lra.
  pose proof cos_20_degrees. lra.
Qed.

Lemma planet_placement_witness :
  exists objs template others planets,
    execute (fun _ => true) default_props = Ok objs
    /\ objs = others ++ planets
    /\ List.length planets = 6%nat
    /\ nth_error planets 1
       = Some (mkObject "PlanetGear_2" (ob_data template)
                 ((IZR (32 + 16) * 0.05 / 2 + 0.0002) * cos (2 * PI * 1 / 6),
                  (IZR (32 + 16) * 0.05 / 2 + 0.0002) * sin (2 * PI * 1 / 6),
                  0)
                 (PI - 2 * PI * 1 / 6 * (1 + 32 / 16))).
Proof.
  destruct default_props_run as [objs Hrun].
  destruct (create_gear_object_total (fun _ => true) "PlanetGearTemplate" 16
              0.05 false 0.2 20 4) as [face Htemplate];
    [lia | lra | pose proof cos_20_degrees; lra |].
  cbv beta iota in Htemplate.
  destruct (planet_placement (fun _ => true) default_props objs _
              ltac:(simpl; lia) ltac:(simpl; lia) Hrun Htemplate)
    as (others & planets & Hobjs & Hlen & Hnth).
  destruct (Hnth 1%Z ltac:(simpl; lia)) as [Hone _].
  eexists objs, _, others, planets.
  split; [exact Hrun |]. split; [exact Hobjs |]. split; [exact Hlen |].
  exact Hone.
Defined.

(** * Further properties of the code *)

(** ** Rotation and polar coordinates *)

Lemma rotate_point_2d_norm2 (point : Point2D) (angle : R) :
  norm2 (rotate_point_2d point angle) = norm2 point.
Proof.
  destruct point as [x y]. unfold norm2, rotate_point_2d. simpl.
  pose proof (sin2_cos2 angle) as H. unfold Rsqr in H.
  replace ((x * cos angle - y * sin angle)
           * ((x * cos angle - y * sin angle) * 1)
           + (x * sin angle + y * cos angle)
             * ((x * sin angle + y * cos angle) * 1))
    with ((x * x + y * y) * (sin angle * sin angle + cos angle * cos angle))
    by ring.
  rewrite H. ring.
Qed.

(** X1: [rotate_point_2d] is a rigid rotation about the gear axis: it keeps
    the distance of a point from the origin, and so the distance between
    any two points. *)
Theorem rotate_point_2d_keeps_distance (p q : Point2D) (angle : R) :
  norm2 (rotate_point_2d p angle) = norm2 p
  /\ norm2 (fst (rotate_point_2d p angle) - fst (rotate_point_2d q angle),
            snd (rotate_point_2d p angle) - snd (rotate_point_2d q angle))
     = norm2 (fst p - fst q, snd p - snd q).
Proof.
  split; [apply rotate_point_2d_norm2 |].
  rewrite <- (rotate_point_2d_norm2 (fst p - fst q, snd p - snd q) angle).
  destruct p as [x y], q as [u v]. unfold norm2, rotate_point_2d. simpl. ring.
Qed.

Lemma rotate_point_2d_zero (point : Point2D) (angle : R) :
  rotate_point_2d point (0 * angle) = point.
Proof.
  destruct point as [x y]. unfold rotate_point_2d.
  rewrite Rmult_0_l, cos_0, sin_0. f_equal; ring.
Qed.

Lemma rotate_point_2d_polar (radius theta angle : R) :
  rotate_point_2d (polar radius theta) angle = polar radius (theta + angle).
Proof.
  unfold rotate_point_2d, polar. rewrite cos_plus, sin_plus. f_equal; ring.
Qed.

(** X2: Rotations compose by adding their angles, a rotation by 0 changes
    nothing, and rotating the point at polar coordinates (r, t) by a gives
    the point at (r, t + a). *)
Theorem rotate_point_2d_composes (point : Point2D) (a b radius theta : R) :
  rotate_point_2d (rotate_point_2d point a) b = rotate_point_2d point (a + b)
  /\ rotate_point_2d point 0 = point
  /\ rotate_point_2d (polar radius theta) a = polar radius (theta + a).
Proof.
  split; [| split].
  - destruct point as [x y]. unfold rotate_point_2d.
    rewrite cos_plus, sin_plus. f_equal; ring.
  - rewrite <- (Rmult_0_l 0). apply rotate_point_2d_zero.
  - apply rotate_point_2d_polar.
Qed.

(** ** Outcomes of the involute angle *)

(** X3: The clamp and the two errors of [calculate_involute_angle]: 0 at
    or below the base radius; above it, [ZeroDivisionError] for a zero
    base radius and [ValueError] (square root of a negative number) when
    the radius is closer to 0 than the base radius, which needs a negative
    base radius. *)
Theorem calculate_involute_angle_outcomes (base_radius radius : R) :
  (radius <= base_radius ->
   calculate_involute_angle base_radius radius = Ok 0)
  /\ (base_radius < radius -> base_radius = 0 ->
      calculate_involute_angle base_radius radius = Raise ZeroDivisionError)
  /\ (base_radius < radius -> base_radius <> 0 ->
      radius ^ 2 < base_radius ^ 2 ->
      calculate_involute_angle base_radius radius = Raise ValueError).
Proof.
  split; [apply calculate_involute_angle_clamped |].
  split.
  - intros Hlt ->. unfold calculate_involute_angle.
    rewrite if_Rle_false by lra. rewrite py_div_zero. reflexivity.
  - intros Hlt Hb Hin. unfold calculate_involute_angle.
    rewrite if_Rle_false by lra. rewrite py_div_ok by assumption. cbn [bind].
    rewrite math_sqrt_neg; [reflexivity |].
    assert (Hb2 : 0 < base_radius ^ 2) by (simpl; nra).
    replace ((radius / base_radius) ^ 2) with (radius ^ 2 / base_radius ^ 2)
      by (field; assumption).
    assert (radius ^ 2 / base_radius ^ 2 < 1).
    { apply Rmult_lt_reg_r with (base_radius ^ 2); [assumption |].
      unfold Rdiv. rewrite Rmult_assoc, Rinv_l by lra. lra. }
    lra.
Qed.

Lemma calculate_involute_angle_outcomes_witness :
  calculate_involute_angle 1 1 = Ok 0
  /\ calculate_involute_angle 0 1 = Raise ZeroDivisionError
  /\ calculate_involute_angle (-2) 1 = Raise ValueError.
Proof.
  destruct (calculate_involute_angle_outcomes 1 1) as [H1 _].
  destruct (calculate_involute_angle_outcomes 0 1) as [_ [H2 _]].
  destruct (calculate_involute_angle_outcomes (-2) 1) as [_ [_ H3]].
  split; [apply H1; lra |]. split; [apply H2; lra |]. apply H3; lra.
Defined.

Lemma tan_above_identity (a : R) : 0 < a -> a < PI / 2 -> a < tan a.
Proof.
  intros Ha Hb.
  destruct (MVT_cor2 tan (fun c => 1 + tan c ^ 2) 0 a Ha) as [c [Hc [H0c Hca]]].
  - intros c [Hc1 Hc2].
    assert (Hrange : - PI / 2 < c < PI / 2) by lra.
    apply (derive_pt_eq_1 tan c _ (derivable_pt_tan c Hrange)).
    apply derive_pt_tan.
  - rewrite tan_0 in Hc.
    assert (Htan : 0 < tan c) by (apply tan_gt_0; lra).
    assert (0 < tan c ^ 2 * (a - 0)).
    { apply Rmult_lt_0_compat; [| lra]. simpl. rewrite Rmult_1_r.
      apply Rmult_lt_0_compat; assumption. }
    lra.
Qed.

(** X5: On the pitch circle of a gear with pressure angle phi (base radius =
    pitch radius * cos phi, 0 <= phi < 90 degrees) the involute angle is the
    involute function of the pressure angle, tan phi - phi. *)
Theorem involute_angle_at_pitch_circle (pitch_radius phi : R) :
  0 < pitch_radius -> 0 <= phi -> phi < PI / 2 ->
  calculate_involute_angle (pitch_radius * cos phi) pitch_radius
  = Ok (tan phi - phi).
Proof.
  intros Hp Hphi0 Hphi.
  assert (Hcos : 0 < cos phi) by (apply cos_gt_0; lra).
  destruct (Req_dec phi 0) as [-> | Hnz].
  - rewrite cos_0, tan_0.
    rewrite calculate_involute_angle_clamped by lra. f_equal. ring.
  - assert (Hcos1 : cos phi < 1).
    { rewrite <- cos_0. apply cos_decreasing_1; lra. }
    assert (Hb : 0 < pitch_radius * cos phi) by (apply Rmult_lt_0_compat; lra).
    assert (Hlt : pitch_radius * cos phi < pitch_radius) by nra.
    rewrite calculate_involute_angle_curve by assumption.
    rewrite involute_sqrt_is_tan by assumption.
    replace (pitch_radius * cos phi / pitch_radius) with (cos phi)
      by (field; lra).
    rewrite acos_cos by lra. reflexivity.
Qed.

Lemma involute_angle_at_pitch_circle_witness :
  calculate_involute_angle (2 * cos 1) 2 = Ok (tan 1 - 1).
Proof.
  pose proof PI2_3_2.
  apply (involute_angle_at_pitch_circle 2 1); lra.
Defined.

(** ** Points of a tooth face *)

(** X6: Clamping: every radius at or below the base radius gives the point
    where the involute leaves the base circle, the same as the base radius
    itself. *)
Theorem involute_point_clamps_to_base_circle
  (base_radius side angle_offset radius : R) :
  radius <= base_radius ->
  get_involute_point base_radius side angle_offset radius
  = Ok (polar base_radius (side * (0 + angle_offset)))
  /\ get_involute_point base_radius side angle_offset radius
     = get_involute_point base_radius side angle_offset base_radius.
Proof.
  intros Hle.
  rewrite (get_involute_point_clamped base_radius side angle_offset radius Hle).
  rewrite (get_involute_point_clamped base_radius side angle_offset base_radius)
    by lra.
  split; reflexivity.
Qed.

Lemma involute_point_clamps_to_base_circle_witness :
  get_involute_point 2 1 0 1 = Ok (polar 2 (1 * (0 + 0)))
  /\ get_involute_point 2 1 0 1 = get_involute_point 2 1 0 2.
Proof.
  apply (involute_point_clamps_to_base_circle 2 1 0 1). lra.
Defined.

Lemma polar_mirror (radius theta : R) :
  polar radius (- theta) = mirror (polar radius theta).
Proof.
  unfold polar, mirror. simpl. rewrite cos_neg, sin_neg. f_equal. ring.
Qed.

Lemma get_involute_point_mirror
  (base_radius angle_offset radius : R) (p : Point2D) :
  get_involute_point base_radius 1 angle_offset radius = Ok p ->
  get_involute_point base_radius (-1) angle_offset radius = Ok (mirror p).
Proof.
  unfold get_involute_point. intros H. bind_step H a Ha.
  rewrite Ha. cbn [bind]. injection H as <-.
  rewrite <- polar_mirror. do 2 f_equal. ring.
Qed.

(** X7: The two flanks of a tooth are mirror images: the sample of side -1 is
    the sample of side +1 reflected in the x axis. *)
Theorem tooth_profile_point_mirror
  (fraction root_radius base_radius outer_radius angle_offset : R)
  (p : Point2D) :
  get_tooth_profile_point fraction root_radius base_radius outer_radius
    angle_offset 1 = Ok p ->
  get_tooth_profile_point fraction root_radius base_radius outer_radius
    angle_offset (-1) = Ok (mirror p).
Proof.
  unfold get_tooth_profile_point. apply get_involute_point_mirror.
Qed.

Lemma tooth_profile_point_mirror_witness :
  get_tooth_profile_point 0 1 2 3 0 (-1) = Ok (mirror (polar 2 (1 * (0 + 0)))).
Proof.
  apply (tooth_profile_point_mirror 0 1 2 3 0).
  unfold get_tooth_profile_point.
  apply get_involute_point_clamped. rewrite Rmax_left by lra. lra.
Defined.

Lemma get_tooth_profile_point_radius
  (fraction root_radius base_radius outer_radius angle_offset side : R)
  (p : Point2D) :
  0 <= fraction <= 1 -> Rmax base_radius root_radius <= outer_radius ->
  get_tooth_profile_point fraction root_radius base_radius outer_radius
    angle_offset side = Ok p ->
  Rmax base_radius root_radius
  <= (1 - fraction) * Rmax base_radius root_radius + fraction * outer_radius
  <= outer_radius
  /\ norm2 p
     = ((1 - fraction) * Rmax base_radius root_radius
        + fraction * outer_radius) ^ 2.
Proof.
  intros Hf Hstart H.
  set (start := Rmax base_radius root_radius) in *.
  assert (Hbase : base_radius <= start) by apply Rmax_l.
  assert (Hcur : start <= (1 - fraction) * start + fraction * outer_radius
                 <= outer_radius) by (split; nra).
  split; [exact Hcur |].
  unfold get_tooth_profile_point, get_involute_point in H. fold start in H.
  rewrite if_Rlt_false in H by lra.
  bind_step H a Ha. injection H as <-. apply polar_norm.
Qed.

(** X8: A sample of the tooth face lies on the circle whose radius is
    interpolated between the start radius max(base, root) and the outer
    radius: on the start circle at fraction 0, on the outer circle at
    fraction 1, and between the two for fractions in between. *)
Theorem tooth_profile_point_radius
  (fraction root_radius base_radius outer_radius angle_offset side : R)
  (p : Point2D) :
  0 <= fraction <= 1 -> Rmax base_radius root_radius <= outer_radius ->
  get_tooth_profile_point fraction root_radius base_radius outer_radius
    angle_offset side = Ok p ->
  exists r,
    norm2 p = r ^ 2
    /\ Rmax base_radius root_radius <= r <= outer_radius
    /\ (fraction = 0 -> r = Rmax base_radius root_radius)
    /\ (fraction = 1 -> r = outer_radius).
Proof.
  intros Hf Hstart H.
  destruct (get_tooth_profile_point_radius _ _ _ _ _ _ _ Hf Hstart H)
    as [Hcur Hnorm].
  eexists. split; [exact Hnorm |]. split; [exact Hcur |].
  split; intros ->; ring.
Qed.

Lemma tooth_profile_point_radius_witness :
  exists p r,
    get_tooth_profile_point 1 1 2 3 0 1 = Ok p
    /\ norm2 p = r ^ 2 /\ r = 3.
Proof.
  destruct (get_tooth_profile_point_total 1 1 2 3 0 1) as [p Hp]; [lra |].
  destruct (tooth_profile_point_radius 1 1 2 3 0 1 p) as [r [Hn [_ [_ H1]]]];
    [lra | rewrite Rmax_left by lra; lra | exact Hp |].
  exists p, r. split; [exact Hp |]. split; [exact Hn | apply H1; reflexivity].
Defined.

(** ** The template tooth and its replication *)

Lemma mapM_In {A B : Type} (f : A -> result B) (xs : list A) (ys : list B)
  (y : B) :
  mapM f xs = Ok ys -> In y ys -> exists x, In x xs /\ f x = Ok y.
Proof.
  revert ys. induction xs as [| x xs IH]; intros ys H Hy; simpl in H.
  - injection H as <-. contradiction.
  - bind_step H y' Hy'. bind_step H ys' Hys'. injection H as <-.
    destruct Hy as [<- | Hy].
    + exists x. split; [left; reflexivity | assumption].
    + destruct (IH ys' Hys' Hy) as [x' [Hin Hx']].
      exists x'. split; [right; assumption | assumption].
Qed.

Lemma mapM_app {A B : Type} (f : A -> result B) (xs1 xs2 : list A)
  (ys1 ys2 : list B) :
  mapM f xs1 = Ok ys1 -> mapM f xs2 = Ok ys2 ->
  mapM f (xs1 ++ xs2) = Ok (ys1 ++ ys2).
Proof.
  revert ys1. induction xs1 as [| x xs1 IH]; intros ys1 H1 H2; simpl in *.
  - injection H1 as <-. assumption.
  - bind_step H1 y Hy. bind_step H1 ys Hys. injection H1 as <-.
    rewrite Hy. cbn [bind]. rewrite (IH ys Hys H2). reflexivity.
Qed.

Lemma mapM_rev_map {A B : Type} (f g : A -> result B) (h : B -> B)
  (xs : list A) (ys : list B) :
  (forall x y, f x = Ok y -> g x = Ok (h y)) ->
  mapM f xs = Ok ys -> mapM g (rev xs) = Ok (rev (map h ys)).
Proof.
  intros Hfg. revert ys. induction xs as [| x xs IH]; intros ys H; simpl in H.
  - injection H as <-. reflexivity.
  - bind_step H y Hy. bind_step H ys' Hys. injection H as <-.
    simpl. apply mapM_app; [apply IH; assumption |].
    simpl. rewrite (Hfg x y Hy). reflexivity.
Qed.

(** What a returning run of the builder has computed, with the template
    tooth spelled out. *)
Lemma build_gear_verts_template
  (num_teeth : Z) (scale : R) (is_internal : bool) (pressure_angle_deg : R)
  (pts : list Point2D) :
  build_gear_verts num_teeth scale is_internal pressure_angle_deg = Ok pts ->
  exists angle_offset root_start_angle rising falling,
    gear_angle_offset num_teeth scale pressure_angle_deg = Ok angle_offset
    /\ mapM (tooth_sample num_teeth scale pressure_angle_deg angle_offset 1)
            (range (num_segments + 1)) = Ok rising
    /\ mapM (tooth_sample num_teeth scale pressure_angle_deg angle_offset (-1))
            (range_down num_segments) = Ok falling
    /\ root_start_angle
       = (if Rlt_dec (gear_root_radius num_teeth scale)
                     (gear_base_radius num_teeth scale pressure_angle_deg)
          then angle_offset
          else - PI / IZR num_teeth)
    /\ IZR num_teeth <> 0
    /\ pts
       = close_loop
           (oriented is_internal
              (replicate_tooth num_teeth
                 ([polar (gear_root_radius num_teeth scale) root_start_angle]
                    ++ rising ++ falling
                    ++ [polar (gear_root_radius num_teeth scale)
                          (- root_start_angle)])
                 (2 * PI / IZR num_teeth))).
Proof.
  unfold build_gear_verts. intros H.
  bind_step H half Hhalf. bind_step H inv Hinv.
  bind_step H rs Hrs. bind_step H re Hre.
  bind_step H rising Hrising. bind_step H falling Hfalling.
  bind_step H angle Hangle. injection H as <-.
  apply py_div_inv in Hangle. destruct Hangle as [Hn ->].
  exists (- inv - half / 2), rs, rising, falling.
  split.
  { unfold gear_angle_offset, gear_base_radius, gear_pitch_radius.
    rewrite Hhalf. cbn [bind]. rewrite Hinv. reflexivity. }
  split; [exact Hrising |]. split; [exact Hfalling |].
  unfold gear_root_radius, gear_base_radius, gear_pitch_radius.
  match type of Hrs with
  | context [Rlt_dec ?a ?b] => destruct (Rlt_dec a b)
  end.
  - injection Hrs as <-. injection Hre as <-.
    split; [reflexivity |]. split; [exact Hn | reflexivity].
  - apply py_div_inv in Hrs, Hre.
    destruct Hrs as [_ ->]. destruct Hre as [_ ->].
    split; [reflexivity |]. split; [exact Hn |].
    replace (PI / IZR num_teeth) with (- (- PI / IZR num_teeth))
      by (field; assumption).
    reflexivity.
Qed.

Lemma tooth_sample_mirror
  (num_teeth : Z) (scale pressure_angle_deg angle_offset : R) (i : Z)
  (p : Point2D) :
  tooth_sample num_teeth scale pressure_angle_deg angle_offset 1 i = Ok p ->
  tooth_sample num_teeth scale pressure_angle_deg angle_offset (-1) i
  = Ok (mirror p).
Proof.
  unfold tooth_sample. intros H. bind_step H fraction Hf.
  rewrite Hf. cbn [bind].
  unfold get_tooth_profile_point in *. apply get_involute_point_mirror.
  assumption.
Qed.

Lemma mirror_involutive (p : Point2D) : mirror (mirror p) = p.
Proof.
  destruct p as [x y]. unfold mirror. simpl. f_equal. ring.
Qed.

Lemma map_mirror_involutive (l : list Point2D) : map mirror (map mirror l) = l.
Proof.
  rewrite map_map. rewrite <- (map_id l) at 2.
  apply map_ext. apply mirror_involutive.
Qed.

(** The template tooth read backwards and reflected is the template tooth. *)
Lemma template_tooth_symmetric
  (root_radius root_start_angle : R) (rising : list Point2D) :
  rev (map mirror
         ([polar root_radius root_start_angle] ++ rising
            ++ rev (map mirror rising)
            ++ [polar root_radius (- root_start_angle)]))
  = [polar root_radius root_start_angle] ++ rising
      ++ rev (map mirror rising)
      ++ [polar root_radius (- root_start_angle)].
Proof.
  rewrite !map_app, !rev_app_distr. simpl.
  rewrite <- !polar_mirror, Ropp_involutive.
  rewrite map_rev, rev_involutive, map_mirror_involutive.
  rewrite <- !app_assoc. reflexivity.
Qed.

Lemma nth_error_flat_map_block {A B : Type} (f : A -> list B) (m : nat)
  (xs : list A) (k j : nat) (x : A) :
  (forall a, List.length (f a) = m) ->
  nth_error xs k = Some x -> (j < m)%nat ->
  nth_error (flat_map f xs) (k * m + j) = nth_error (f x) j.
Proof.
  intros Hlen. revert k. induction xs as [| a xs IH]; intros k Hk Hj.
  - destruct k; discriminate.
  - destruct k as [| k]; simpl in *.
    + injection Hk as ->. apply nth_error_app1. rewrite Hlen. assumption.
    + rewrite nth_error_app2 by (rewrite Hlen; lia).
      rewrite Hlen. replace (m + k * m + j - m)%nat with (k * m + j)%nat by lia.
      apply IH; assumption.
Qed.

Lemma nth_error_close_loop (l : list Point2D) (k : nat) :
  (k < List.length l)%nat -> nth_error (close_loop l) k = nth_error l k.
Proof.
  intros Hk. destruct l as [| p l]; [reflexivity |].
  unfold close_loop. apply nth_error_app1. assumption.
Qed.

(** Point [j] of tooth [k] of an external outline. *)
Lemma external_outline_nth
  (num_teeth : Z) (tooth : list Point2D) (angle : R) (k : Z) (j : nat) :
  (0 <= k < num_teeth)%Z -> (j < List.length tooth)%nat ->
  nth_error (close_loop (oriented false (replicate_tooth num_teeth tooth angle)))
            (Z.to_nat k * List.length tooth + j)
  = option_map (fun p => rotate_point_2d p (IZR k * angle)) (nth_error tooth j).
Proof.
  intros Hk Hj. cbn [oriented].
  rewrite nth_error_close_loop.
  - unfold replicate_tooth.
    rewrite (nth_error_flat_map_block _ (List.length tooth) (range num_teeth)
               (Z.to_nat k) j k).
    + apply nth_error_map.
    + intros a. apply length_map.
    + apply range_nth. assumption.
    + assumption.
  - rewrite replicate_tooth_length.
    assert (Z.to_nat k < Z.to_nat num_teeth)%nat by lia. nia.
Qed.

Lemma template_tooth_length
  (a b : Point2D) (rising falling : list Point2D) (f g : Z -> result Point2D) :
  mapM f (range (num_segments + 1)) = Ok rising ->
  mapM g (range_down num_segments) = Ok falling ->
  List.length ([a] ++ rising ++ falling ++ [b]) = 14%nat.
Proof.
  intros Hr Hf. apply mapM_length in Hr, Hf.
  simpl. rewrite !length_app, Hr, Hf. reflexivity.
Qed.

(** X9: Each tooth of an external outline is the first tooth turned about the
    axis: point j of tooth k is point j of the first tooth rotated by
    k * 2 * pi / num_teeth. *)
Theorem outline_teeth_are_rotations
  (num_teeth : Z) (scale pressure_angle_deg : R) (pts : list Point2D)
  (k : Z) (j : nat) (p : Point2D) :
  build_gear_verts num_teeth scale false pressure_angle_deg = Ok pts ->
  (0 <= k < num_teeth)%Z -> (j < 14)%nat ->
  nth_error pts j = Some p ->
  nth_error pts (Z.to_nat k * 14 + j)
  = Some (rotate_point_2d p (IZR k * (2 * PI / IZR num_teeth))).
Proof.
  intros H Hk Hj Hp.
  destruct (build_gear_verts_template _ _ _ _ _ H)
    as (off & rs & rising & falling & _ & Hr & Hf & _ & _ & ->).
  pose proof (template_tooth_length
                (polar (gear_root_radius num_teeth scale) rs)
                (polar (gear_root_radius num_teeth scale) (- rs))
                rising falling _ _ Hr Hf) as Hlen.
  set (tooth := [polar (gear_root_radius num_teeth scale) rs] ++ rising
                  ++ falling
                  ++ [polar (gear_root_radius num_teeth scale) (- rs)])
    in *.
  pose proof (external_outline_nth num_teeth tooth (2 * PI / IZR num_teeth)
                0 j ltac:(lia) ltac:(lia)) as H0.
  simpl (Z.to_nat 0 * _ + j)%nat in H0. rewrite Hp in H0.
  pose proof (external_outline_nth num_teeth tooth (2 * PI / IZR num_teeth)
                k j Hk ltac:(lia)) as Hkj.
  rewrite Hlen in Hkj. rewrite Hkj.
  destruct (nth_error tooth j) as [t |]; [| discriminate].
  simpl in H0. injection H0 as ->.
  simpl. rewrite rotate_point_2d_zero. reflexivity.
Qed.

Lemma cos_radians_pos (deg : R) :
  -90 < deg < 90 -> 0 < cos (math_radians deg).
Proof.
  intros [Hlo Hhi]. pose proof PI_RGT_0 as Hpi.
  unfold math_radians. apply cos_gt_0.
  - replace (- (PI / 2)) with (-90 * (PI / 180)) by field.
    apply Rmult_lt_compat_r; lra.
  - replace (PI / 2) with (90 * (PI / 180)) by field.
    apply Rmult_lt_compat_r; lra.
Qed.

Lemma outline_teeth_are_rotations_witness :
  exists pts p,
    build_gear_verts 3 1 false 20 = Ok pts
    /\ nth_error pts 0 = Some p
    /\ nth_error pts 14 = Some (rotate_point_2d p (1 * (2 * PI / 3))).
Proof.
  destruct (build_gear_verts_total 3 1 false 20) as [pts Hpts];
    [lia | lra | apply cos_radians_pos; lra |].
  pose proof (build_gear_verts_length 3 1 false 20 pts ltac:(lia) Hpts) as Hlen.
  destruct (nth_error pts 0) as [p |] eqn:Hp.
  - exists pts, p. split; [exact Hpts |]. split; [exact Hp |].
    apply (outline_teeth_are_rotations 3 1 20 pts 1 0 p Hpts);
      [lia | lia | exact Hp].
  - apply nth_error_None in Hp. unfold num_segments in Hlen. lia.
Defined.

(** X10: The first tooth of an external outline is symmetric about the x axis:
    its point 13 - j is its point j reflected. *)
Theorem outline_tooth_mirror_symmetric
  (num_teeth : Z) (scale pressure_angle_deg : R) (pts : list Point2D)
  (j : nat) (p : Point2D) :
  (1 <= num_teeth)%Z ->
  build_gear_verts num_teeth scale false pressure_angle_deg = Ok pts ->
  (j < 14)%nat ->
  nth_error pts j = Some p ->
  nth_error pts (13 - j) = Some (mirror p).
Proof.
  intros Hn H Hj Hp.
  destruct (build_gear_verts_template _ _ _ _ _ H)
    as (off & rs & rising & falling & _ & Hr & Hf & _ & _ & ->).
  pose proof (template_tooth_length
                (polar (gear_root_radius num_teeth scale) rs)
                (polar (gear_root_radius num_teeth scale) (- rs))
                rising falling _ _ Hr Hf) as Hlen.
  assert (Hfall : falling = rev (map mirror rising)).
  { pose proof (mapM_rev_map _ _ mirror _ _
                  (tooth_sample_mirror num_teeth scale pressure_angle_deg off)
                  Hr) as Hrev.
    unfold range_down in Hf. rewrite Hrev in Hf. injection Hf as <-.
    reflexivity. }
  subst falling.
  pose proof (template_tooth_symmetric (gear_root_radius num_teeth scale) rs
                rising) as Hsym.
  set (tooth := [polar (gear_root_radius num_teeth scale) rs] ++ rising
                  ++ rev (map mirror rising)
                  ++ [polar (gear_root_radius num_teeth scale) (- rs)]) in *.
  assert (Hnth : forall i, (i < 14)%nat ->
            nth_error
              (close_loop (oriented false
                 (replicate_tooth num_teeth tooth (2 * PI / IZR num_teeth)))) i
            = nth_error tooth i).
  { intros i Hi.
    pose proof (external_outline_nth num_teeth tooth (2 * PI / IZR num_teeth)
                  0 i ltac:(lia) ltac:(lia)) as H0.
    simpl (Z.to_nat 0 * _ + i)%nat in H0. rewrite H0.
    destruct (nth_error tooth i); [| reflexivity].
    simpl. rewrite rotate_point_2d_zero. reflexivity. }
  rewrite Hnth in Hp by assumption. rewrite Hnth by lia.
  rewrite <- Hsym at 1.
  rewrite nth_error_rev, length_map, Hlen.
  destruct (Nat.ltb_spec (13 - j) 14) as [_ | Hge]; [| lia].
  replace (14 - S (13 - j))%nat with j by lia.
  rewrite nth_error_map, Hp. reflexivity.
Qed.

Lemma outline_tooth_mirror_symmetric_witness :
  exists pts p,
    build_gear_verts 3 1 false 20 = Ok pts
    /\ nth_error pts 0 = Some p
    /\ nth_error pts 13 = Some (mirror p).
Proof.
  destruct (build_gear_verts_total 3 1 false 20) as [pts Hpts];
    [lia | lra | apply cos_radians_pos; lra |].
  pose proof (build_gear_verts_length 3 1 false 20 pts ltac:(lia) Hpts) as Hlen.
  destruct (nth_error pts 0) as [p |] eqn:Hp.
  - exists pts, p. split; [exact Hpts |]. split; [exact Hp |].
    apply (outline_tooth_mirror_symmetric 3 1 20 pts 0 p);
      [lia | exact Hpts | lia | exact Hp].
  - apply nth_error_None in Hp. unfold num_segments in Hlen. lia.
Defined.

(** ** The whole outline *)

Lemma In_close_loop (l : list Point2D) (p : Point2D) :
  In p (close_loop l) -> In p l.
Proof.
  destruct l as [| a l]; [intros []|].
  unfold close_loop. intros H. apply in_app_or in H.
  destruct H as [H | [<- | []]]; [assumption | left; reflexivity].
Qed.

Lemma In_oriented (is_internal : bool) (l : list Point2D) (p : Point2D) :
  In p (oriented is_internal l) -> In p l.
Proof.
  destruct is_internal; simpl; [apply in_rev | trivial].
Qed.

Lemma In_replicate_tooth
  (num_teeth : Z) (tooth : list Point2D) (angle : R) (p : Point2D) :
  In p (replicate_tooth num_teeth tooth angle) ->
  exists q, In q tooth /\ norm2 p = norm2 q.
Proof.
  unfold replicate_tooth. intros H.
  apply in_flat_map in H. destruct H as [k [_ H]].
  apply in_map_iff in H. destruct H as [q [<- Hq]].
  exists q. split; [assumption | apply rotate_point_2d_norm2].
Qed.

Lemma tooth_sample_radius
  (num_teeth : Z) (scale pressure_angle_deg angle_offset side : R) (i : Z)
  (p : Point2D) :
  (1 <= num_teeth)%Z -> 0 < scale ->
  0 < cos (math_radians pressure_angle_deg) ->
  (0 <= i <= num_segments)%Z ->
  tooth_sample num_teeth scale pressure_angle_deg angle_offset side i = Ok p ->
  exists r,
    norm2 p = r ^ 2
    /\ 0 < r <= gear_outer_radius num_teeth scale
    /\ gear_root_radius num_teeth scale <= r.
Proof.
  intros Hn Hs Hc Hi H.
  assert (Hn1 : 1 <= IZR num_teeth) by (apply IZR_le in Hn; exact Hn).
  pose proof (COS_bound (math_radians pressure_angle_deg)) as [_ Hc1].
  assert (Hpitch : scale / 2 <= gear_pitch_radius num_teeth scale)
    by (unfold gear_pitch_radius; nra).
  assert (Hbase0 : 0 < gear_base_radius num_teeth scale pressure_angle_deg)
    by (unfold gear_base_radius; apply Rmult_lt_0_compat; lra).
  assert (Hbase1 : gear_base_radius num_teeth scale pressure_angle_deg
                   <= gear_pitch_radius num_teeth scale)
    by (unfold gear_base_radius; nra).
  unfold tooth_sample in H. bind_step H fraction Hf.
  apply py_div_inv in Hf. destruct Hf as [_ ->].
  assert (Hfr : 0 <= IZR i / IZR num_segments <= 1).
  { unfold num_segments in *.
    assert (0 <= IZR i) by (apply IZR_le; lia).
    assert (IZR i <= 5) by (apply IZR_le; lia).
    split; lra. }
  assert (Hstart : Rmax (gear_base_radius num_teeth scale pressure_angle_deg)
                        (gear_root_radius num_teeth scale)
                   <= gear_outer_radius num_teeth scale).
  { apply Rmax_lub; unfold gear_outer_radius, gear_root_radius; lra. }
  destruct (get_tooth_profile_point_radius _ _ _ _ _ _ _ Hfr Hstart H)
    as [[Hlo Hhi] Hnorm].
  eexists. split; [exact Hnorm |].
  pose proof (Rmax_l (gear_base_radius num_teeth scale pressure_angle_deg)
                (gear_root_radius num_teeth scale)).
  pose proof (Rmax_r (gear_base_radius num_teeth scale pressure_angle_deg)
                (gear_root_radius num_teeth scale)).
  repeat split; lra.
Qed.

Lemma square_le (a b : R) : 0 <= a -> a <= b -> a ^ 2 <= b ^ 2.
Proof. intros Ha Hab. simpl. nra. Qed.

(** On a well-formed gear every outline point is within the outer circle,
    and from 3 teeth on, where the root radius is positive, none is inside
    the root circle. *)
Lemma outline_norm_bounds
  (num_teeth : Z) (scale : R) (is_internal : bool) (pressure_angle_deg : R)
  (pts : list Point2D) (p : Point2D) :
  (1 <= num_teeth)%Z -> 0 < scale ->
  0 < cos (math_radians pressure_angle_deg) ->
  build_gear_verts num_teeth scale is_internal pressure_angle_deg = Ok pts ->
  In p pts ->
  norm2 p <= gear_outer_radius num_teeth scale ^ 2
  /\ ((3 <= num_teeth)%Z -> gear_root_radius num_teeth scale ^ 2 <= norm2 p).
Proof.
  intros Hn Hs Hc H Hp.
  destruct (build_gear_verts_template _ _ _ _ _ H)
    as (off & rs & rising & falling & _ & Hr & Hf & _ & _ & ->).
  apply In_close_loop, In_oriented, In_replicate_tooth in Hp.
  destruct Hp as [q [Hq ->]].
  assert (Hn1 : 1 <= IZR num_teeth) by (apply IZR_le in Hn; exact Hn).
  assert (Hroot : forall a,
             norm2 (polar (gear_root_radius num_teeth scale) a)
             <= gear_outer_radius num_teeth scale ^ 2
             /\ ((3 <= num_teeth)%Z ->
                 gear_root_radius num_teeth scale ^ 2
                 <= norm2 (polar (gear_root_radius num_teeth scale) a))).
  { intros a. unfold norm2. rewrite polar_norm. split; [| intros _; lra].
    unfold gear_outer_radius, gear_root_radius, gear_pitch_radius. simpl. nra. }
  assert (Hsample : forall side i,
             (0 <= i <= num_segments)%Z ->
             tooth_sample num_teeth scale pressure_angle_deg off side i = Ok q ->
             norm2 q <= gear_outer_radius num_teeth scale ^ 2
             /\ ((3 <= num_teeth)%Z ->
                 gear_root_radius num_teeth scale ^ 2 <= norm2 q)).
  { intros side i Hi Hq'.
    destruct (tooth_sample_radius _ _ _ _ _ _ _ Hn Hs Hc Hi Hq')
      as [r [-> [[Hr0 Hr1] Hr2]]].
    split; [apply square_le; lra |].
    intros H3. apply IZR_le in H3. apply square_le; [| assumption].
    unfold gear_root_radius, gear_pitch_radius. nra. }
  apply in_app_or in Hq. destruct Hq as [[<- | []] | Hq]; [apply Hroot |].
  apply in_app_or in Hq. destruct Hq as [Hq | Hq].
  { destruct (mapM_In _ _ _ _ Hr Hq) as [i [Hi Hqi]].
    apply range_In in Hi. apply (Hsample 1 i); [unfold num_segments in *; lia |].
    exact Hqi. }
  apply in_app_or in Hq. destruct Hq as [Hq | [<- | []]]; [| apply Hroot].
  destruct (mapM_In _ _ _ _ Hf Hq) as [i [Hi Hqi]].
  unfold range_down in Hi. apply in_rev in Hi. apply range_In in Hi.
  apply (Hsample (-1) i); [unfold num_segments in *; lia | exact Hqi].
Qed.

(** X11: For a gear of at least 3 teeth, positive module and pressure angle
    below 90 degrees, every point of the outline lies between the root
    circle and the outer (addendum) circle. *)
Theorem outline_between_root_and_outer_circles
  (num_teeth : Z) (scale : R) (is_internal : bool) (pressure_angle_deg : R)
  (pts : list Point2D) :
  (3 <= num_teeth)%Z -> 0 < scale -> -90 < pressure_angle_deg < 90 ->
  build_gear_verts num_teeth scale is_internal pressure_angle_deg = Ok pts ->
  Forall (fun p =>
            (scale * IZR num_teeth / 2 - scale * 1.25) ^ 2 <= norm2 p
            /\ norm2 p <= (scale * IZR num_teeth / 2 + scale) ^ 2) pts.
Proof.
  intros Hn Hs Hpa H. apply Forall_forall. intros p Hp.
  destruct (outline_norm_bounds num_teeth scale is_internal pressure_angle_deg
              pts p ltac:(lia) Hs (cos_radians_pos _ Hpa) H Hp) as [Hhi Hlo].
  split; [apply Hlo; assumption | exact Hhi].
Qed.

Lemma outline_between_root_and_outer_circles_witness :
  exists pts,
    build_gear_verts 4 1 true 20 = Ok pts
    /\ Forall (fun p =>
                 (1 * 4 / 2 - 1 * 1.25) ^ 2 <= norm2 p
                 /\ norm2 p <= (1 * 4 / 2 + 1) ^ 2) pts.
Proof.
  destruct (build_gear_verts_total 4 1 true 20) as [pts Hpts];
    [lia | lra | apply cos_radians_pos; lra |].
  exists pts. split; [exact Hpts |].
  apply (outline_between_root_and_outer_circles 4 1 true 20 pts);
    [lia | lra | lra | exact Hpts].
Defined.

Lemma removelast_close_loop (l : list Point2D) : removelast (close_loop l) = l.
Proof.
  destruct l as [| p l]; [reflexivity |].
  unfold close_loop. apply removelast_last.
Qed.

(** X12: The internal outline is the external one read backwards: without
    their closing points the two are reverses of each other, and they have
    the same number of points. *)
Theorem internal_outline_is_reversed
  (num_teeth : Z) (scale pressure_angle_deg : R)
  (external internal : list Point2D) :
  build_gear_verts num_teeth scale false pressure_angle_deg = Ok external ->
  build_gear_verts num_teeth scale true pressure_angle_deg = Ok internal ->
  removelast internal = rev (removelast external)
  /\ List.length internal = List.length external.
Proof.
  intros Hext Hint.
  destruct (build_gear_verts_shape _ _ _ _ _ Hext) as [tooth [angle [_ Hall]]].
  rewrite Hall in Hext, Hint.
  injection Hext as <-. injection Hint as <-.
  rewrite !removelast_close_loop. split; [reflexivity |].
  cbn [oriented].
  destruct (replicate_tooth num_teeth tooth angle) as [| p l] eqn:Hl;
    [reflexivity |].
  rewrite !close_loop_length.
  - rewrite length_rev. reflexivity.
  - discriminate.
  - intros Hnil. apply (f_equal (@List.length _)) in Hnil.
    rewrite length_rev in Hnil. discriminate.
Qed.

Lemma internal_outline_is_reversed_witness :
  exists external internal,
    build_gear_verts 3 1 false 20 = Ok external
    /\ build_gear_verts 3 1 true 20 = Ok internal
    /\ removelast internal = rev (removelast external).
Proof.
  destruct (build_gear_verts_total 3 1 false 20) as [external Hext];
    [lia | lra | apply cos_radians_pos; lra |].
  destruct (build_gear_verts_total 3 1 true 20) as [internal Hint];
    [lia | lra | apply cos_radians_pos; lra |].
  exists external, internal. split; [exact Hext |]. split; [exact Hint |].
  apply (internal_outline_is_reversed 3 1 20 external internal Hext Hint).
Defined.



(** X14: A tooth count of 0 is a division by zero, whatever the other
    arguments: out of the builder, and so out of [create_gear_object],
    which does not catch it. *)
Theorem zero_teeth_division_by_zero
  (face_accepted : list Point3D -> bool) (name : string) (scale : R)
  (is_internal : bool) (thickness pressure_angle_deg ring_margin : R) :
  build_gear_verts 0 scale is_internal pressure_angle_deg
  = Raise ZeroDivisionError
  /\ create_gear_object face_accepted name 0 scale is_internal thickness
       pressure_angle_deg ring_margin = Raise ZeroDivisionError.
Proof.
  split; [apply build_gear_verts_zero_teeth |].
  apply create_gear_object_propagates. apply build_gear_verts_zero_teeth.
Qed.

(** ** Where the outline meets the pitch, root and outer circles *)

Lemma gear_angle_offset_valid
  (num_teeth : Z) (scale pressure_angle_deg : R) :
  (1 <= num_teeth)%Z -> 0 < scale ->
  0 < cos (math_radians pressure_angle_deg) ->
  exists inv,
    calculate_involute_angle
      (gear_base_radius num_teeth scale pressure_angle_deg)
      (gear_pitch_radius num_teeth scale) = Ok inv
    /\ gear_angle_offset num_teeth scale pressure_angle_deg
       = Ok (- inv - PI / IZR num_teeth / 2).
Proof.
  intros Hn Hs Hc.
  assert (Hn1 : 1 <= IZR num_teeth) by (apply IZR_le in Hn; exact Hn).
  assert (Hpitch : 0 < gear_pitch_radius num_teeth scale)
    by (unfold gear_pitch_radius; nra).
  assert (Hbase : 0 < gear_base_radius num_teeth scale pressure_angle_deg)
    by (unfold gear_base_radius; apply Rmult_lt_0_compat; assumption).
  destruct (calculate_involute_angle_total _ (gear_pitch_radius num_teeth scale)
              Hbase) as [inv Hinv].
  exists inv. split; [exact Hinv |].
  unfold gear_angle_offset.
  rewrite if_Rlt_true by assumption. rewrite py_div_ok by lra. cbn [bind].
  rewrite Hinv. cbn [bind]. do 2 f_equal.
  unfold gear_pitch_radius. field. lra.
Qed.

(** X15: The offset the builder gives the template tooth makes the two flanks
    cross the pitch circle at the angles -pi / (2 * num_teeth) and
    +pi / (2 * num_teeth): on the pitch circle a tooth is pi / num_teeth
    wide, half the angular pitch. *)
Theorem flanks_cross_pitch_circle
  (num_teeth : Z) (scale pressure_angle_deg : R) :
  (1 <= num_teeth)%Z -> 0 < scale -> -90 < pressure_angle_deg < 90 ->
  exists angle_offset,
    gear_angle_offset num_teeth scale pressure_angle_deg = Ok angle_offset
    /\ get_involute_point
         (scale * IZR num_teeth / 2 * cos (math_radians pressure_angle_deg))
         1 angle_offset (scale * IZR num_teeth / 2)
       = Ok (polar (scale * IZR num_teeth / 2) (- (PI / IZR num_teeth / 2)))
    /\ get_involute_point
         (scale * IZR num_teeth / 2 * cos (math_radians pressure_angle_deg))
         (-1) angle_offset (scale * IZR num_teeth / 2)
       = Ok (polar (scale * IZR num_teeth / 2) (PI / IZR num_teeth / 2)).
Proof.
  intros Hn Hs Hpa. pose proof (cos_radians_pos _ Hpa) as Hc.
  destruct (gear_angle_offset_valid num_teeth scale pressure_angle_deg Hn Hs Hc)
    as [inv [Hinv Hoff]].
  unfold gear_base_radius, gear_pitch_radius in Hinv.
  eexists. split; [exact Hoff |].
  assert (Hn1 : 1 <= IZR num_teeth) by (apply IZR_le in Hn; exact Hn).
  pose proof (COS_bound (math_radians pressure_angle_deg)) as [_ Hc1].
  assert (Hpitch : 0 < scale * IZR num_teeth / 2) by nra.
  assert (Hle : ~ scale * IZR num_teeth / 2
                  < scale * IZR num_teeth / 2
                    * cos (math_radians pressure_angle_deg)) by nra.
  unfold get_involute_point. rewrite !if_Rlt_false by assumption.
  rewrite Hinv. cbn [bind]. split; do 2 f_equal; ring.
Qed.

Lemma flanks_cross_pitch_circle_witness :
  exists angle_offset,
    gear_angle_offset 32 0.05 20 = Ok angle_offset
    /\ get_involute_point (0.05 * 32 / 2 * cos (math_radians 20)) 1
         angle_offset (0.05 * 32 / 2)
       = Ok (polar (0.05 * 32 / 2) (- (PI / 32 / 2))).
Proof.
  destruct (flanks_cross_pitch_circle 32 0.05 20) as [off [Hoff [Hplus _]]];
    [lia | lra | lra |].
  exists off. split; [exact Hoff | exact Hplus].
Defined.

Lemma mapM_nth {A B : Type} (f : A -> result B) (xs : list A) (ys : list B)
  (k : nat) (x : A) :
  mapM f xs = Ok ys -> nth_error xs k = Some x ->
  exists y, nth_error ys k = Some y /\ f x = Ok y.
Proof.
  revert ys k. induction xs as [| x' xs IH]; intros ys k H Hk.
  - destruct k; discriminate.
  - simpl in H. bind_step H y Hy. bind_step H ys' Hys. injection H as <-.
    destruct k as [| k]; simpl in *.
    + injection Hk as ->. exists y. split; [reflexivity | assumption].
    + apply (IH ys' k Hys Hk).
Qed.

(** X16: In the first tooth of an external outline of a well-formed gear, point
    0 lies on the root circle and point 6, the last sample of the rising
    flank, on the outer circle: the outline reaches both circles. *)
Theorem outline_reaches_root_and_outer_circles
  (num_teeth : Z) (scale pressure_angle_deg : R) (pts : list Point2D) :
  (1 <= num_teeth)%Z -> 0 < scale -> -90 < pressure_angle_deg < 90 ->
  build_gear_verts num_teeth scale false pressure_angle_deg = Ok pts ->
  exists root_point tip_point,
    nth_error pts 0 = Some root_point
    /\ norm2 root_point = (scale * IZR num_teeth / 2 - scale * 1.25) ^ 2
    /\ nth_error pts 6 = Some tip_point
    /\ norm2 tip_point = (scale * IZR num_teeth / 2 + scale) ^ 2.
Proof.
  intros Hn Hs Hpa H. pose proof (cos_radians_pos _ Hpa) as Hc.
  destruct (build_gear_verts_template _ _ _ _ _ H)
    as (off & rs & rising & falling & _ & Hr & Hf & _ & _ & ->).
  pose proof (template_tooth_length
                (polar (gear_root_radius num_teeth scale) rs)
                (polar (gear_root_radius num_teeth scale) (- rs))
                rising falling _ _ Hr Hf) as Hlen.
  destruct (mapM_nth _ _ _ 5%nat 5%Z Hr eq_refl) as [tip [Htip Hsample]].
  exists (polar (gear_root_radius num_teeth scale) rs), tip.
  set (first := polar (gear_root_radius num_teeth scale) rs) in *.
  set (tooth := [first] ++ rising ++ falling
                  ++ [polar (gear_root_radius num_teeth scale) (- rs)]) in *.
  assert (Hnth : forall j,
            (j < 14)%nat ->
            nth_error
              (close_loop (oriented false
                 (replicate_tooth num_teeth tooth (2 * PI / IZR num_teeth)))) j
            = nth_error tooth j).
  { intros j Hj.
    pose proof (external_outline_nth num_teeth tooth (2 * PI / IZR num_teeth)
                  0 j ltac:(lia) ltac:(lia)) as H0.
    simpl (Z.to_nat 0 * _ + j)%nat in H0. rewrite H0.
    destruct (nth_error tooth j); [| reflexivity].
    simpl. rewrite rotate_point_2d_zero. reflexivity. }
  rewrite !Hnth by lia.
  split; [reflexivity |].
  split; [apply polar_norm |].
  split.
  { unfold tooth.
    change (nth_error (rising ++ falling
                         ++ [polar (gear_root_radius num_teeth scale) (- rs)])
              5 = Some tip).
    rewrite nth_error_app1; [exact Htip |].
    apply nth_error_Some. rewrite Htip. discriminate. }
  unfold tooth_sample in Hsample. bind_step Hsample fraction Hfr.
  apply py_div_inv in Hfr. destruct Hfr as [_ ->].
  assert (Hn1 : 1 <= IZR num_teeth) by (apply IZR_le in Hn; exact Hn).
  pose proof (COS_bound (math_radians pressure_angle_deg)) as [_ Hc1].
  assert (Hstart : Rmax (gear_base_radius num_teeth scale pressure_angle_deg)
                        (gear_root_radius num_teeth scale)
                   <= gear_outer_radius num_teeth scale).
  { assert (Hpitch : 0 < gear_pitch_radius num_teeth scale)
      by (unfold gear_pitch_radius; nra).
    apply Rmax_lub; unfold gear_base_radius, gear_outer_radius, gear_root_radius;
      nra. }
  assert (Hfr : 0 <= 5 / IZR num_segments <= 1)
    by (unfold num_segments; lra).
  destruct (get_tooth_profile_point_radius _ _ _ _ _ _ _ Hfr Hstart Hsample)
    as [_ Hn2].
  rewrite Hn2. unfold num_segments, gear_outer_radius, gear_pitch_radius.
  field.
Qed.

Lemma outline_reaches_root_and_outer_circles_witness :
  exists pts root_point tip_point,
    build_gear_verts 4 1 false 20 = Ok pts
    /\ nth_error pts 0 = Some root_point
    /\ norm2 root_point = (1 * 4 / 2 - 1 * 1.25) ^ 2
    /\ nth_error pts 6 = Some tip_point
    /\ norm2 tip_point = (1 * 4 / 2 + 1) ^ 2.
Proof.
  destruct (build_gear_verts_total 4 1 false 20) as [pts Hpts];
    [lia | lra | apply cos_radians_pos; lra |].
  destruct (outline_reaches_root_and_outer_circles 4 1 20 pts
              ltac:(lia) ltac:(lra) ltac:(lra) Hpts)
    as (root_point & tip_point & H).
  exists pts, root_point, tip_point. split; [exact Hpts | exact H].
Defined.

(** ** Winding of the outline *)

Lemma cross_polar (r t r' t' : R) :
  cross (polar r t) (polar r' t') = r * r' * sin (t' - t).
Proof.
  unfold cross, polar. simpl. rewrite sin_minus. ring.
Qed.

Lemma shoelace_turns_forward (l : list (R * R)) :
  turns_forward l -> 0 <= shoelace (map polar_point l).
Proof.
  induction l as [| a l IH]; [simpl; lra |].
  destruct l as [| b l]; [simpl; lra |].
  intros [[Ha [Hb [Hlo Hhi]]] Hrest].
  change (0 <= cross (polar_point a) (polar_point b)
               + shoelace (map polar_point (b :: l))).
  specialize (IH Hrest).
  unfold polar_point at 1 2. rewrite cross_polar.
  assert (0 <= sin (snd b - snd a)) by (apply sin_ge_0; assumption).
  assert (0 <= fst a * fst b) by (apply Rmult_le_pos; assumption).
  assert (0 <= fst a * fst b * sin (snd b - snd a))
    by (apply Rmult_le_pos; assumption).
  lra.
Qed.

Lemma shoelace_turns_strictly (l : list (R * R)) :
  turns_forward l -> turns_strictly l -> 0 < shoelace (map polar_point l).
Proof.
  induction l as [| a l IH]; [intros _ [] |].
  destruct l as [| b l]; [intros _ [] |].
  intros [[Ha [Hb [Hlo Hhi]]] Hrest] Hstrict.
  change (0 < cross (polar_point a) (polar_point b)
              + shoelace (map polar_point (b :: l))).
  unfold polar_point at 1 2. rewrite cross_polar.
  destruct Hstrict as [[Ha' [Hb' [Hlo' Hhi']]] | Hstrict].
  - pose proof (shoelace_turns_forward (b :: l) Hrest).
    assert (0 < sin (snd b - snd a)) by (apply sin_gt_0; assumption).
    assert (0 < fst a * fst b) by (apply Rmult_lt_0_compat; assumption).
    assert (0 < fst a * fst b * sin (snd b - snd a))
      by (apply Rmult_lt_0_compat; assumption).
    lra.
  - specialize (IH Hrest Hstrict).
    assert (0 <= sin (snd b - snd a)) by (apply sin_ge_0; assumption).
    assert (0 <= fst a * fst b) by (apply Rmult_le_pos; assumption).
    assert (0 <= fst a * fst b * sin (snd b - snd a))
      by (apply Rmult_le_pos; assumption).
    lra.
Qed.

Lemma shoelace_split (l1 l2 : list Point2D) (x : Point2D) :
  shoelace (l1 ++ x :: l2) = shoelace (l1 ++ [x]) + shoelace (x :: l2).
Proof.
  induction l1 as [| p l1 IH].
  - simpl. ring.
  - destruct l1 as [| q l1].
    + simpl. ring.
    + change (cross p q + shoelace ((q :: l1) ++ x :: l2)
              = cross p q + shoelace ((q :: l1) ++ [x]) + shoelace (x :: l2)).
      rewrite IH. ring.
Qed.

Lemma cross_rotate (p q : Point2D) (angle : R) :
  cross (rotate_point_2d p angle) (rotate_point_2d q angle) = cross p q.
Proof.
  destruct p as [x y], q as [u v]. unfold cross, rotate_point_2d. simpl.
  pose proof (sin2_cos2 angle) as H. unfold Rsqr in H.
  replace ((x * cos angle - y * sin angle) * (u * sin angle + v * cos angle)
           - (u * cos angle - v * sin angle) * (x * sin angle + y * cos angle))
    with ((x * v - u * y) * (sin angle * sin angle + cos angle * cos angle))
    by ring.
  rewrite H. ring.
Qed.

Lemma shoelace_map_rotate (l : list Point2D) (angle : R) :
  shoelace (map (fun p => rotate_point_2d p angle) l) = shoelace l.
Proof.
  induction l as [| p l IH]; [reflexivity |].
  destruct l as [| q l]; [reflexivity |].
  change (cross (rotate_point_2d p angle) (rotate_point_2d q angle)
          + shoelace (map (fun p => rotate_point_2d p angle) (q :: l))
          = cross p q + shoelace (q :: l)).
  rewrite IH, cross_rotate. reflexivity.
Qed.

Lemma rotate_point_2d_add (p : Point2D) (a b : R) :
  rotate_point_2d (rotate_point_2d p a) b = rotate_point_2d p (a + b).
Proof.
  destruct p as [x y]. unfold rotate_point_2d.
  rewrite cos_plus, sin_plus. f_equal; ring.
Qed.

Lemma rotate_point_2d_full_turn (p : Point2D) :
  rotate_point_2d p (2 * PI) = p.
Proof.
  destruct p as [x y]. unfold rotate_point_2d.
  rewrite cos_2PI, sin_2PI. f_equal; ring.
Qed.

(** The teeth from slot [s] on, followed by the first point of the slot
    after the last: the list starts with the first point of slot [s]. *)
Lemma ring_head
  (first : Point2D) (rest : list Point2D) (a : R) (s len : nat) :
  exists tl,
    flat_map (fun i =>
                map (fun p => rotate_point_2d p (IZR i * a)) (first :: rest))
             (map Z.of_nat (seq s len))
      ++ [rotate_point_2d first (IZR (Z.of_nat (s + len)) * a)]
    = rotate_point_2d first (IZR (Z.of_nat s) * a) :: tl.
Proof.
  destruct len as [| len].
  - exists []. simpl. rewrite Nat.add_0_r. reflexivity.
  - simpl. eexists. reflexivity.
Qed.

(** The shoelace sum of [len] consecutive teeth, closed on the first point
    of the next slot, is [len] times that of one tooth with the edge to
    its successor. *)
Lemma shoelace_ring
  (first z : Point2D) (body : list Point2D) (a : R) (s len : nat) :
  shoelace
    (flat_map (fun i =>
                 map (fun p => rotate_point_2d p (IZR i * a))
                     (first :: body ++ [z]))
              (map Z.of_nat (seq s len))
       ++ [rotate_point_2d first (IZR (Z.of_nat (s + len)) * a)])
  = INR len * (shoelace (first :: body ++ [z])
               + cross z (rotate_point_2d first a)).
Proof.
  set (f := fun i : Z =>
              map (fun p => rotate_point_2d p (IZR i * a))
                  (first :: body ++ [z])).
  revert s. induction len as [| len IH]; intros s.
  - simpl. ring.
  - rewrite S_INR.
    change (flat_map f (map Z.of_nat (seq s (S len))))
      with (f (Z.of_nat s) ++ flat_map f (map Z.of_nat (seq (S s) len))).
    rewrite <- app_assoc.
    replace (s + S len)%nat with (S s + len)%nat by lia.
    destruct (ring_head first (body ++ [z]) a (S s) len) as [tl Htl].
    fold f in Htl. rewrite Htl. rewrite shoelace_split. rewrite <- Htl.
    rewrite IH.
    assert (Hone : shoelace
                     (f (Z.of_nat s)
                        ++ [rotate_point_2d first (IZR (Z.of_nat (S s)) * a)])
                   = shoelace (first :: body ++ [z])
                     + cross z (rotate_point_2d first a)).
    { unfold f.
      set (rot := fun p => rotate_point_2d p (IZR (Z.of_nat s) * a)).
      replace (rotate_point_2d first (IZR (Z.of_nat (S s)) * a))
        with (rot (rotate_point_2d first a)).
      2:{ unfold rot. rewrite rotate_point_2d_add. f_equal.
          rewrite Nat2Z.inj_succ, succ_IZR. ring. }
      replace (map rot (first :: body ++ [z])
                 ++ [rot (rotate_point_2d first a)])
        with (map rot ((first :: body ++ [z]) ++ [rotate_point_2d first a]))
        by (rewrite map_app; reflexivity).
      unfold rot. rewrite shoelace_map_rotate.
      change ((first :: body ++ [z]) ++ [rotate_point_2d first a])
        with (((first :: body) ++ [z]) ++ [rotate_point_2d first a]).
      apply shoelace_snoc. }
    rewrite Hone. ring.
Qed.

(** The closed external outline of [num_teeth] teeth: its shoelace sum is
    [num_teeth] times that of the template tooth with the edge to the next
    tooth. *)
Lemma shoelace_external_outline
  (num_teeth : Z) (first z : Point2D) (body : list Point2D) :
  (1 <= num_teeth)%Z ->
  shoelace
    (close_loop
       (oriented false
          (replicate_tooth num_teeth (first :: body ++ [z])
             (2 * PI / IZR num_teeth))))
  = IZR num_teeth
    * (shoelace (first :: body ++ [z])
       + cross z (rotate_point_2d first (2 * PI / IZR num_teeth))).
Proof.
  intros Hn.
  assert (Hn0 : IZR num_teeth <> 0) by (apply IZR_pos_neq; assumption).
  pose proof (shoelace_ring first z body (2 * PI / IZR num_teeth) 0
                (Z.to_nat num_teeth)) as Hring.
  rewrite INR_IZR_INZ, Z2Nat.id in Hring by lia.
  rewrite <- Hring. f_equal.
  cbn [oriented]. unfold replicate_tooth, range.
  destruct (Z.to_nat num_teeth) as [| k] eqn:Hk; [lia |].
  change (seq 0 (S k)) with (0%nat :: seq 1 k).
  cbn [map flat_map]. cbn [app close_loop]. f_equal. f_equal.
  f_equal.
  rewrite rotate_point_2d_zero.
  replace (IZR (Z.of_nat (0 + S k)) * (2 * PI / IZR num_teeth)) with (2 * PI).
  - rewrite rotate_point_2d_full_turn. reflexivity.
  - rewrite Nat.add_0_l, <- Hk, Z2Nat.id by lia. field. assumption.
Qed.

Lemma calculate_involute_angle_value (base_radius radius : R) :
  0 < base_radius ->
  calculate_involute_angle base_radius radius
  = Ok (involute base_radius radius).
Proof.
  intros Hb. unfold involute.
  destruct (Rle_dec radius base_radius) as [Hle | Hgt].
  - apply calculate_involute_angle_clamped. assumption.
  - apply calculate_involute_angle_curve; lra.
Qed.

Lemma involute_clamped (base_radius radius : R) :
  radius <= base_radius -> involute base_radius radius = 0.
Proof.
  intros H. unfold involute.
  destruct (Rle_dec radius base_radius); [reflexivity | contradiction].
Qed.

Lemma involute_curve (base_radius radius : R) :
  0 < base_radius -> base_radius < radius ->
  involute base_radius radius
  = tan (acos (base_radius / radius)) - acos (base_radius / radius).
Proof.
  intros Hb Hr. unfold involute.
  destruct (Rle_dec radius base_radius); [lra |].
  rewrite involute_sqrt_is_tan by assumption. reflexivity.
Qed.

(** Over the reals the involute angle grows with the radius, strictly so
    from the base circle outwards. *)
Lemma involute_increasing (base_radius r1 r2 : R) :
  0 < base_radius -> base_radius <= r1 -> r1 < r2 ->
  involute base_radius r1 < involute base_radius r2.
Proof.
  intros Hb H1 H2.
  rewrite (involute_curve base_radius r2) by lra.
  destruct (pressure_angle_at_radius_bounds base_radius r2 Hb ltac:(lra))
    as [Hlo2 Hhi2].
  destruct (Rle_dec r1 base_radius) as [Hle | Hgt].
  - rewrite involute_clamped by assumption.
    pose proof (tan_above_identity _ Hlo2 Hhi2). lra.
  - rewrite (involute_curve base_radius r1) by lra.
    apply tan_minus_id_increasing.
    + apply pressure_angle_at_radius_bounds; lra.
    + apply pressure_angle_at_radius_increasing; lra.
    + assumption.
Qed.

Lemma involute_monotone (base_radius r1 r2 : R) :
  0 < base_radius -> r1 <= r2 ->
  involute base_radius r1 <= involute base_radius r2.
Proof.
  intros Hb H12.
  destruct (Rle_dec r2 base_radius) as [Hle2 | Hgt2].
  - rewrite !involute_clamped by lra. lra.
  - destruct (Rle_dec r1 base_radius) as [Hle1 | Hgt1].
    + rewrite (involute_clamped base_radius r1) by assumption.
      rewrite <- (involute_clamped base_radius base_radius) by lra.
      left. apply involute_increasing; lra.
    + destruct (Req_dec r1 r2) as [-> | Hne]; [lra |].
      left. apply involute_increasing; lra.
Qed.

(** The radius of sample [i] of a tooth face. *)
Lemma tooth_sample_polar
  (num_teeth : Z) (scale pressure_angle_deg angle_offset side : R) (i : Z) :
  (1 <= num_teeth)%Z -> 0 < scale ->
  0 < cos (math_radians pressure_angle_deg) ->
  (0 <= i <= num_segments)%Z ->
  tooth_sample num_teeth scale pressure_angle_deg angle_offset side i
  = Ok (polar
          ((1 - IZR i / IZR num_segments)
           * Rmax (gear_base_radius num_teeth scale pressure_angle_deg)
                  (gear_root_radius num_teeth scale)
           + IZR i / IZR num_segments * gear_outer_radius num_teeth scale)
          (side
           * (involute
                (gear_base_radius num_teeth scale pressure_angle_deg)
                ((1 - IZR i / IZR num_segments)
                 * Rmax (gear_base_radius num_teeth scale pressure_angle_deg)
                        (gear_root_radius num_teeth scale)
                 + IZR i / IZR num_segments
                   * gear_outer_radius num_teeth scale)
              + angle_offset))).
Proof.
  intros Hn Hs Hc Hi.
  assert (Hn1 : 1 <= IZR num_teeth) by (apply IZR_le in Hn; exact Hn).
  pose proof (COS_bound (math_radians pressure_angle_deg)) as [_ Hc1].
  assert (Hpitch : 0 < gear_pitch_radius num_teeth scale)
    by (unfold gear_pitch_radius; nra).
  assert (Hbase0 : 0 < gear_base_radius num_teeth scale pressure_angle_deg)
    by (unfold gear_base_radius; apply Rmult_lt_0_compat; lra).
  assert (Hfr : 0 <= IZR i / IZR num_segments <= 1).
  { unfold num_segments in *.
    assert (0 <= IZR i) by (apply IZR_le; lia).
    assert (IZR i <= 5) by (apply IZR_le; lia).
    split; lra. }
  assert (Hstart : Rmax (gear_base_radius num_teeth scale pressure_angle_deg)
                        (gear_root_radius num_teeth scale)
                   <= gear_outer_radius num_teeth scale).
  { apply Rmax_lub; unfold gear_base_radius, gear_outer_radius, gear_root_radius;
      nra. }
  pose proof (Rmax_l (gear_base_radius num_teeth scale pressure_angle_deg)
                (gear_root_radius num_teeth scale)) as Hmax.
  unfold tooth_sample.
  rewrite py_div_ok by (unfold num_segments; lra). cbn [bind].
  unfold get_tooth_profile_point, get_involute_point.
  rewrite if_Rlt_false by nra.
  rewrite calculate_involute_angle_value by assumption. reflexivity.
Qed.

(** The external outline of a gear whose teeth do not overlap runs
    counter-clockwise: its shoelace sum is positive. *)
Lemma external_outline_winds_forward
  (num_teeth : Z) (scale pressure_angle_deg : R) (external : list Point2D) :
  (3 <= num_teeth)%Z -> 0 < scale ->
  0 < cos (math_radians pressure_angle_deg) ->
  teeth_do_not_overlap num_teeth scale pressure_angle_deg ->
  build_gear_verts num_teeth scale false pressure_angle_deg = Ok external ->
  0 < shoelace external.
Proof.
  intros Hn Hs Hc Hov H.
  assert (Hn1 : (1 <= num_teeth)%Z) by lia.
  assert (Hn3 : 3 <= IZR num_teeth) by (apply IZR_le in Hn; exact Hn).
  pose proof (COS_bound (math_radians pressure_angle_deg)) as [_ Hc1].
  pose proof PI_RGT_0 as Hpi.
  (* the radii *)
  assert (Hpitch : 3 / 2 * scale <= gear_pitch_radius num_teeth scale)
    by (unfold gear_pitch_radius; nra).
  assert (Hbase0 : 0 < gear_base_radius num_teeth scale pressure_angle_deg)
    by (unfold gear_base_radius; apply Rmult_lt_0_compat; lra).
  assert (Hbase1 : gear_base_radius num_teeth scale pressure_angle_deg
                   <= gear_pitch_radius num_teeth scale)
    by (unfold gear_base_radius; nra).
  assert (Hroot : 0 < gear_root_radius num_teeth scale)
    by (unfold gear_root_radius; lra).
  assert (Hroot1 : gear_root_radius num_teeth scale
                   <= gear_pitch_radius num_teeth scale)
    by (unfold gear_root_radius; lra).
  assert (Houter : gear_pitch_radius num_teeth scale
                   < gear_outer_radius num_teeth scale)
    by (unfold gear_outer_radius; lra).
  (* what the builder computed *)
  destruct (build_gear_verts_template _ _ _ _ _ H)
    as (off & rs & rising & falling & Hoff & Hr & Hf & Hrs & Hn0 & ->).
  destruct (gear_angle_offset_valid num_teeth scale pressure_angle_deg
              Hn1 Hs Hc) as [inv [Hinv Hoff']].
  rewrite Hoff' in Hoff.
  assert (Hoffv : off = - inv - PI / IZR num_teeth / 2) by congruence.
  clear Hoff Hoff'.
  destruct Hov as (a_s & a_p & a_o & Has & Hap & Hao & HB & HA).
  rewrite Hap in Hinv. assert (inv = a_p) by congruence. subst inv. clear Hinv.
  rewrite calculate_involute_angle_value in Has, Hap, Hao by assumption.
  assert (Has' : a_s = involute
                         (gear_base_radius num_teeth scale pressure_angle_deg)
                         (Rmax (gear_base_radius num_teeth scale
                                  pressure_angle_deg)
                               (gear_root_radius num_teeth scale)))
    by congruence.
  assert (Hap' : a_p = involute
                         (gear_base_radius num_teeth scale pressure_angle_deg)
                         (gear_pitch_radius num_teeth scale)) by congruence.
  assert (Hao' : a_o = involute
                         (gear_base_radius num_teeth scale pressure_angle_deg)
                         (gear_outer_radius num_teeth scale)) by congruence.
  clear Has Hap Hao.
  set (base := gear_base_radius num_teeth scale pressure_angle_deg) in *.
  set (root := gear_root_radius num_teeth scale) in *.
  set (outer := gear_outer_radius num_teeth scale) in *.
  set (pitch := gear_pitch_radius num_teeth scale) in *.
  pose proof (Rmax_l base root) as Hmaxl.
  pose proof (Rmax_r base root) as Hmaxr.
  assert (Hstart : Rmax base root <= pitch) by (apply Rmax_lub; assumption).
  assert (Hsp : a_s <= a_p)
    by (rewrite Has', Hap'; apply involute_monotone; assumption).
  assert (Hpo : a_p <= a_o)
    by (rewrite Hap', Hao'; apply involute_monotone; [assumption | lra]).
  (* the samples *)
  pose (cur := fun i : Z =>
                 (1 - IZR i / IZR num_segments) * Rmax base root
                 + IZR i / IZR num_segments * outer).
  pose (ang := fun i : Z => 1 * (involute base (cur i) + off)).
  assert (Hsample : forall side i,
             (0 <= i <= num_segments)%Z ->
             tooth_sample num_teeth scale pressure_angle_deg off side i
             = Ok (polar (cur i) (side * (involute base (cur i) + off)))).
  { intros side i Hi. apply tooth_sample_polar; assumption. }
  assert (Hrising : rising = map (fun i => polar (cur i) (ang i))
                               (range (num_segments + 1))).
  { rewrite (mapM_ok _ (fun i => polar (cur i) (ang i))) in Hr.
    - congruence.
    - intros i Hi. apply range_In in Hi. apply Hsample.
      unfold num_segments in *. lia. }
  assert (Hfalling : falling = rev (map mirror rising)).
  { pose proof (mapM_rev_map _ _ mirror _ _
                  (tooth_sample_mirror num_teeth scale pressure_angle_deg off)
                  Hr) as Hrev.
    unfold range_down in Hf. rewrite Hrev in Hf. congruence. }
  clear Hr Hf Hsample.
  assert (Hstep : forall i, (0 <= i)%Z ->
             base <= cur i /\ 0 < cur i /\ cur i < cur (i + 1)%Z).
  { intros i Hi. unfold cur, num_segments. rewrite plus_IZR.
    assert (0 <= IZR i) by (apply IZR_le; lia).
    repeat split; nra. }
  assert (Hang : forall i, (0 <= i)%Z -> ang i < ang (i + 1)%Z).
  { intros i Hi. destruct (Hstep i Hi) as (Hb & _ & Hlt).
    unfold ang. pose proof (involute_increasing base (cur i) (cur (i + 1)%Z)
                             Hbase0 Hb Hlt). lra. }
  assert (Hang0 : ang 0%Z = a_s + off).
  { unfold ang, cur, num_segments. rewrite Has'.
    replace ((1 - 0 / 5) * Rmax base root + 0 / 5 * outer)
      with (Rmax base root) by field. ring. }
  assert (Hang5 : ang 5%Z = a_o + off).
  { unfold ang, cur, num_segments. rewrite Hao'.
    replace ((1 - 5 / 5) * Rmax base root + 5 / 5 * outer)
      with outer by field. ring. }
  pose proof (Hstep 0%Z ltac:(lia)) as (_ & Hc0 & _).
  pose proof (Hstep 1%Z ltac:(lia)) as (_ & Hc1' & _).
  pose proof (Hstep 2%Z ltac:(lia)) as (_ & Hc2 & _).
  pose proof (Hstep 3%Z ltac:(lia)) as (_ & Hc3 & _).
  pose proof (Hstep 4%Z ltac:(lia)) as (_ & Hc4 & _).
  pose proof (Hstep 5%Z ltac:(lia)) as (_ & Hc5 & _).
  pose proof (Hang 0%Z ltac:(lia)) as Ha01.
  pose proof (Hang 1%Z ltac:(lia)) as Ha12.
  pose proof (Hang 2%Z ltac:(lia)) as Ha23.
  pose proof (Hang 3%Z ltac:(lia)) as Ha34.
  pose proof (Hang 4%Z ltac:(lia)) as Ha45.
  simpl Z.add in Ha01, Ha12, Ha23, Ha34, Ha45.
  (* the angles in quarter pitches *)
  set (h := PI / IZR num_teeth / 2) in *.
  assert (Hh : 0 < h).
  { unfold h. apply Rdiv_lt_0_compat; [| lra].
    apply Rdiv_lt_0_compat; lra. }
  assert (Hh6 : 6 * h <= PI).
  { unfold h.
    replace PI with (6 * (PI / 3 / 2)) at 2 by field.
    apply Rmult_le_compat_l; [lra |].
    apply Rmult_le_compat_r; [lra |].
    apply Rmult_le_compat_l; [lra |].
    apply Rinv_le_contravar; lra. }
  assert (Hrs' : (root < base /\ rs = off /\ a_s = 0)
                 \/ (~ root < base /\ rs = - (2 * h))).
  { destruct (Rlt_dec root base) as [Hlt | Hge].
    - left. split; [assumption |]. split; [assumption |].
      rewrite Has'. rewrite Rmax_left by lra.
      apply involute_clamped. lra.
    - right. split; [assumption |]. rewrite Hrs. unfold h. field.
      assumption. }
  clear Hrs.
  assert (Hturn : 2 * PI / IZR num_teeth = 4 * h)
    by (unfold h; field; assumption).
  (* the area of the outline *)
  subst rising falling.
  change (range (num_segments + 1)) with [0; 1; 2; 3; 4; 5]%Z.
  cbn [map rev app].
  rewrite <- !polar_mirror.
  match goal with
  | |- 0 < shoelace (close_loop (oriented false
                                   (replicate_tooth _ ?tooth _))) =>
      change tooth
        with (polar root rs
                :: [polar (cur 0%Z) (ang 0%Z); polar (cur 1%Z) (ang 1%Z);
                    polar (cur 2%Z) (ang 2%Z); polar (cur 3%Z) (ang 3%Z);
                    polar (cur 4%Z) (ang 4%Z); polar (cur 5%Z) (ang 5%Z);
                    polar (cur 5%Z) (- ang 5%Z); polar (cur 4%Z) (- ang 4%Z);
                    polar (cur 3%Z) (- ang 3%Z); polar (cur 2%Z) (- ang 2%Z);
                    polar (cur 1%Z) (- ang 1%Z); polar (cur 0%Z) (- ang 0%Z)]
                ++ [polar root (- rs)])
  end.
  rewrite shoelace_external_outline by assumption.
  apply Rmult_lt_0_compat; [lra |].
  rewrite rotate_point_2d_polar, Hturn.
  match goal with
  | |- 0 < shoelace (?first :: ?body ++ [?z]) + cross ?z ?next =>
      change (first :: body ++ [z]) with ((first :: body) ++ [z]);
      rewrite <- (shoelace_snoc (first :: body) z next)
  end.
  change (0 < shoelace
                (map polar_point
                   [(root, rs); (cur 0%Z, ang 0%Z); (cur 1%Z, ang 1%Z);
                    (cur 2%Z, ang 2%Z); (cur 3%Z, ang 3%Z); (cur 4%Z, ang 4%Z);
                    (cur 5%Z, ang 5%Z); (cur 5%Z, - ang 5%Z); (cur 4%Z, - ang 4%Z);
                    (cur 3%Z, - ang 3%Z); (cur 2%Z, - ang 2%Z); (cur 1%Z, - ang 1%Z);
                    (cur 0%Z, - ang 0%Z); (root, - rs); (root, rs + 4 * h)])).
  clearbody cur ang h.
  apply shoelace_turns_strictly.
  - cbn [turns_forward fst snd].
    destruct Hrs' as [(_ & -> & Hzero) | (_ & ->)];
      repeat match goal with |- _ /\ _ => split end; lra.
  - cbn [turns_strictly fst snd].
    do 5 right. left.
    repeat match goal with |- _ /\ _ => split end; lra.
Qed.

(** C5: for the same tooth count, module and pressure angle, the internal
    outline has the signed area of the external outline with the sign
    flipped, because its points run in the reverse order.  On a gear whose
    teeth do not overlap the external outline runs counter-clockwise, so
    the two areas are not zero: the external one is positive and the
    internal one negative. *)
Theorem internal_flips_signed_area
  (num_teeth : Z) (scale pressure_angle_deg : R) (external : list Point2D) :
  build_gear_verts num_teeth scale false pressure_angle_deg = Ok external ->
  exists internal,
    build_gear_verts num_teeth scale true pressure_angle_deg = Ok internal
    /\ signed_area internal = - signed_area external
    /\ (0 < signed_area external -> signed_area internal < 0)
    /\ (signed_area external < 0 -> 0 < signed_area internal)
    /\ ((3 <= num_teeth)%Z -> 0 < scale ->
        0 < cos (math_radians pressure_angle_deg) ->
        teeth_do_not_overlap num_teeth scale pressure_angle_deg ->
        0 < signed_area external /\ signed_area internal < 0).
Proof.
  intros H.
  destruct (build_gear_verts_shape _ _ _ _ _ H) as [tooth [angle [_ Hall]]].
  pose proof H as Hext. rewrite Hall in H.
  assert (Hexternal : external
                      = close_loop
                          (oriented false
                             (replicate_tooth num_teeth tooth angle)))
    by congruence.
  clear H.
  eexists. split; [apply Hall |].
  assert (Hflip : signed_area
                    (close_loop (oriented true (replicate_tooth num_teeth tooth angle)))
                  = - signed_area external).
  { rewrite Hexternal. unfold signed_area, oriented.
    rewrite close_loop_rev_area. lra. }
  rewrite Hflip.
  split; [reflexivity |].
  split; [intros; lra |]. split; [intros; lra |].
  intros Hn Hs Hc Hov.
  pose proof (external_outline_winds_forward num_teeth scale pressure_angle_deg
                external Hn Hs Hc Hov Hext) as Hpos.
  unfold signed_area. split; lra.
Qed.

(** Numeric bounds for the default pressure angle of 20 degrees. *)
Lemma PI_between : 31 / 10 < PI < 16 / 5.
Proof.
  split.
  - assert (H : 31 / 20 < PI / 2); [| lra].
    apply PI2_lower_bound; [lra |].
    pose proof (pre_cos_bound (31 / 20) 1 ltac:(lra) ltac:(lra)) as [Hlb _].
    unfold cos_approx, cos_term in Hlb. simpl in Hlb. lra.
  - destruct (Rlt_dec (PI / 2) (8 / 5)) as [Hlt | Hge]; [lra |].
    exfalso.
    pose proof PI_RGT_0.
    assert (Hcos : 0 <= cos (8 / 5)) by (apply cos_ge_0; lra).
    pose proof (pre_cos_bound (8 / 5) 0 ltac:(lra) ltac:(lra)) as [_ Hub].
    unfold cos_approx, cos_term in Hub. simpl in Hub. lra.
Qed.

Lemma cos_20_degrees_between :
  9367 / 10000 <= cos (math_radians 20) <= 9414 / 10000.
Proof.
  pose proof PI_between as [Hlo Hhi].
  unfold math_radians.
  set (x := 20 * (PI / 180)).
  assert (Hx : 31 / 90 < x < 32 / 90) by (unfold x; lra).
  pose proof (pre_cos_bound x 0 ltac:(lra) ltac:(lra)) as [Hlb Hub].
  unfold cos_approx, cos_term in Hlb, Hub. simpl in Hlb, Hub.
  assert (Hx2 : (31 / 90) * (31 / 90) <= x * x <= (32 / 90) * (32 / 90))
    by (split; nra).
  assert (Hx4 : x * x * (x * x) <= (32 / 90) * (32 / 90) * (x * x)) by nra.
  split; nra.
Qed.

Lemma acos_lower_bound (y angle : R) :
  0 <= angle <= PI -> -1 <= y <= 1 -> y <= cos angle -> angle <= acos y.
Proof.
  intros Hangle Hy Hcos.
  destruct (Rle_dec angle (acos y)) as [Hle | Hgt]; [assumption |].
  exfalso.
  pose proof (acos_bound y) as [Hlo Hhi].
  assert (H : cos angle < cos (acos y)) by (apply cos_decreasing_1; lra).
  rewrite cos_acos in H by assumption. lra.
Qed.

Lemma sqrt_upper_bound (x y : R) :
  0 <= x -> 0 <= y -> x <= y * y -> sqrt x <= y.
Proof.
  intros Hx Hy Hxy.
  rewrite <- (sqrt_square y Hy).
  apply sqrt_le_1; [assumption | nra | assumption].
Qed.

(** Five teeth of module 1 at the default pressure angle of 20 degrees: the
    teeth do not overlap. *)
Lemma five_teeth_do_not_overlap : teeth_do_not_overlap 5 1 20.
Proof.
  pose proof PI_between as [Hpi_lo Hpi_hi].
  pose proof cos_20_degrees_between as [Hc_lo Hc_hi].
  assert (Hpitch : gear_pitch_radius 5 1 = 5 / 2)
    by (unfold gear_pitch_radius; field).
  assert (Hroot : gear_root_radius 5 1 = 5 / 4)
    by (unfold gear_root_radius; rewrite Hpitch; lra).
  assert (Houter : gear_outer_radius 5 1 = 7 / 2)
    by (unfold gear_outer_radius; rewrite Hpitch; lra).
  unfold teeth_do_not_overlap, gear_base_radius.
  rewrite Hpitch, Hroot, Houter.
  set (c := cos (math_radians 20)) in *.
  set (base := 5 / 2 * c).
  assert (Hbase : 23417 / 10000 <= base <= 23535 / 10000)
    by (unfold base; lra).
  rewrite Rmax_left by lra.
  exists 0,
    (sqrt ((5 / 2 / base) ^ 2 - 1) - acos (base / (5 / 2))),
    (sqrt ((7 / 2 / base) ^ 2 - 1) - acos (base / (7 / 2))).
  split; [apply calculate_involute_angle_clamped; lra |].
  split; [apply calculate_involute_angle_curve; lra |].
  split; [apply calculate_involute_angle_curve; lra |].
  (* the involute angle on the pitch circle, between 0 and 0.04 *)
  assert (Hap_lo : 0 <= sqrt ((5 / 2 / base) ^ 2 - 1) - acos (base / (5 / 2))).
  { pose proof (involute_monotone base base (5 / 2) ltac:(lra) ltac:(lra))
      as Hmono.
    rewrite (involute_clamped base base) in Hmono by lra.
    unfold involute in Hmono.
    destruct (Rle_dec (5 / 2) base); [lra | exact Hmono]. }
  assert (Hap_hi : sqrt ((5 / 2 / base) ^ 2 - 1) - acos (base / (5 / 2))
                   <= 4 / 100).
  { assert (Hratio : 5 / 2 / base = / c) by (unfold base; field; lra).
    assert (Hinv : / c <= 10000 / 9367).
    { rewrite <- (Rinv_inv (10000 / 9367)).
      apply Rinv_le_contravar; [lra |].
      replace (/ (10000 / 9367)) with (9367 / 10000) by field. lra. }
    assert (Hinv1 : 1 <= / c).
    { rewrite <- Rinv_1 at 1. apply Rinv_le_contravar; lra. }
    assert (Hsqrt : sqrt ((5 / 2 / base) ^ 2 - 1) <= 38 / 100).
    { rewrite Hratio. apply sqrt_upper_bound; [simpl; nra | lra |].
      simpl. nra. }
    assert (Hacos : 34 / 100 <= acos (base / (5 / 2))).
    { replace (base / (5 / 2)) with c by (unfold base; field).
      unfold c, math_radians. rewrite acos_cos by lra. lra. }
    lra. }
  (* the involute angle on the outer circle, at most 0.292 *)
  assert (Hao_hi : sqrt ((7 / 2 / base) ^ 2 - 1) - acos (base / (7 / 2))
                   <= 292 / 1000).
  { assert (Hratio : 7 / 2 / base <= 14955 / 10000).
    { apply Rmult_le_reg_r with base; [lra |].
      unfold Rdiv at 1. rewrite Rmult_assoc, Rinv_l by lra. lra. }
    assert (Hratio1 : 1 <= 7 / 2 / base).
    { apply Rmult_le_reg_r with base; [lra |].
      unfold Rdiv at 1. rewrite Rmult_assoc, Rinv_l by lra. lra. }
    assert (Hsqrt : sqrt ((7 / 2 / base) ^ 2 - 1) <= 1112 / 1000).
    { apply sqrt_upper_bound; [simpl; nra | lra |]. simpl. nra. }
    assert (Hacos : 82 / 100 <= acos (base / (7 / 2))).
    { apply acos_lower_bound; [lra | split; lra |].
      pose proof (pre_cos_bound (82 / 100) 1 ltac:(lra) ltac:(lra))
        as [Hlb _].
      unfold cos_approx, cos_term in Hlb. simpl in Hlb. lra. }
    lra. }
  assert (Hquarter : 31 / 100 <= PI / 5 / 2) by lra.
  split; lra.
Qed.

Lemma internal_flips_signed_area_witness :
  exists external internal,
    build_gear_verts 5 1 false 20 = Ok external
    /\ build_gear_verts 5 1 true 20 = Ok internal
    /\ signed_area internal = - signed_area external
    /\ 0 < signed_area external
    /\ signed_area internal < 0.
Proof.
  assert (Hcos : 0 < cos (math_radians 20)) by (apply cos_radians_pos; lra).
  destruct (build_gear_verts_total 5 1 false 20) as [external Hext];
    [lia | lra | exact Hcos |].
  destruct (internal_flips_signed_area 5 1 20 external Hext)
    as (internal & Hint & Harea & _ & _ & Hsign).
  destruct (Hsign ltac:(lia) ltac:(lra) Hcos five_teeth_do_not_overlap)
    as [Hpos Hneg].
  exists external, internal.
  split; [exact Hext |]. split; [exact Hint |]. split; [exact Harea |].
  split; [exact Hpos | exact Hneg].
Defined.

(** ** The gear object *)

(** What [create_gear_object] has done when it hands back a gear. *)
Lemma create_gear_object_some_inv
  (face_accepted : list Point3D -> bool) (name : string) (num_teeth : Z)
  (scale : R) (is_internal : bool) (thickness pressure_angle_deg ring_margin : R)
  (gear : BObject) :
  create_gear_object face_accepted name num_teeth scale is_internal thickness
    pressure_angle_deg ring_margin = Ok (Some gear) ->
  exists verts face,
    build_gear_verts num_teeth scale is_internal pressure_angle_deg = Ok verts
    /\ face_accepted face = true
    /\ gear = objects_new name
                (mkMesh name face
                   (if Rlt_dec 0 thickness then Some thickness else None))
    /\ (if is_internal
        then exists ring,
            List.length ring = S (Z.to_nat (Z.max (num_teeth * 2) 64))
            /\ Forall (fun p =>
                         norm2 p
                         = (gear_pitch_radius num_teeth scale + scale * 2
                            + scale * ring_margin) ^ 2) ring
            /\ face = map flat ring ++ map flat verts
        else face = map flat verts).
Proof.
  unfold create_gear_object. intros H.
  bind_step H verts Hverts. destruct verts as [| v verts]; [discriminate |].
  bind_step H face Hface.
  destruct (face_accepted face) eqn:Hacc; [| discriminate].
  injection H as <-.
  exists (v :: verts), face.
  split; [exact Hverts |]. split; [exact Hacc |]. split; [reflexivity |].
  destruct is_internal; cbn [negb] in Hface.
  - bind_step Hface outer Houter. bind_step Hface ring Hring.
    injection Hface as <-.
    exists ring.
    assert (Hall : Forall (fun p =>
                             norm2 p
                             = (gear_pitch_radius num_teeth scale + scale * 2
                                + scale * ring_margin) ^ 2) outer).
    { apply Forall_forall. intros p Hp.
      destruct (mapM_In _ _ _ _ Houter Hp) as [i [_ Hi]].
      bind_step Hi a Ha. injection Hi as <-. apply polar_norm. }
    apply mapM_length in Houter. rewrite range_length in Houter.
    destruct outer as [| first outer]; [discriminate |].
    injection Hring as <-.
    split; [simpl; rewrite length_app; simpl in Houter |- *; lia |].
    split; [| reflexivity].
    change (first :: outer ++ [first]) with ((first :: outer) ++ [first]).
    apply Forall_app. split; [exact Hall |].
    constructor; [| constructor]. inversion Hall. assumption.
  - injection Hface as <-. reflexivity.
Qed.

(** X18: A gear that comes back carries the given name, sits at the origin
    unrotated, and its mesh is one planar face (z = 0) that the host
    accepted, extruded by the thickness exactly when the thickness is
    positive.  The face has 14 * num_teeth + 1 vertices for an external
    gear; an internal gear puts max(2 * num_teeth, 64) + 1 vertices of the
    outer circle before them. *)
Theorem create_gear_object_result
  (face_accepted : list Point3D -> bool) (name : string) (num_teeth : Z)
  (scale : R) (is_internal : bool) (thickness pressure_angle_deg ring_margin : R)
  (gear : BObject) :
  create_gear_object face_accepted name num_teeth scale is_internal thickness
    pressure_angle_deg ring_margin = Ok (Some gear) ->
  ob_name gear = name
  /\ mesh_name (ob_data gear) = name
  /\ ob_location gear = (0, 0, 0)
  /\ ob_rotation_z gear = 0
  /\ face_accepted (mesh_face (ob_data gear)) = true
  /\ Forall (fun v => snd v = 0) (mesh_face (ob_data gear))
  /\ (0 < thickness -> mesh_extrude (ob_data gear) = Some thickness)
  /\ (thickness <= 0 -> mesh_extrude (ob_data gear) = None)
  /\ Z.of_nat (List.length (mesh_face (ob_data gear)))
     = (if is_internal
        then Z.max (num_teeth * 2) 64 + 1 + (14 * num_teeth + 1)
        else 14 * num_teeth + 1)%Z.
Proof.
  intros H.
  pose proof (create_gear_object_some_teeth _ _ _ _ _ _ _ _ _ H) as Hn.
  destruct (create_gear_object_some_inv _ _ _ _ _ _ _ _ _ H)
    as (verts & face & Hverts & Hacc & -> & Hface).
  pose proof (build_gear_verts_length _ _ _ _ _ Hn Hverts) as Hlen.
  unfold num_segments in Hlen. cbn [objects_new ob_name ob_data ob_location
    ob_rotation_z mesh_name mesh_face mesh_extrude].
  repeat (split; [reflexivity |]). split; [exact Hacc |].
  assert (Hflat : forall l, Forall (fun v : Point3D => snd v = 0) (map flat l)).
  { intros l. apply Forall_forall. intros v Hv.
    apply in_map_iff in Hv. destruct Hv as [p [<- _]]. reflexivity. }
  split.
  { destruct is_internal.
    - destruct Hface as [ring [_ [_ ->]]]. apply Forall_app. split; apply Hflat.
    - rewrite Hface. apply Hflat. }
  split; [intros Hth; rewrite if_Rlt_true by assumption; reflexivity |].
  split; [intros Hth; rewrite if_Rlt_false by lra; reflexivity |].
  destruct is_internal.
  - destruct Hface as [ring [Hring [_ ->]]].
    rewrite length_app, !length_map, Hring. lia.
  - rewrite Hface, length_map. lia.
Qed.


Lemma create_gear_object_example :
  exists gear,
    create_gear_object (fun _ => true) "RingGear" 64 0.05 true 0.2 20 4
    = Ok (Some gear).
Proof.
  destruct (create_gear_object_total (fun _ => true) "RingGear" 64 0.05 true
              0.2 20 4) as [face Hface];
    [lia | lra | apply cos_radians_pos; lra |].
  eexists. exact Hface.
Qed.

Lemma create_gear_object_result_witness :
  exists gear,
    create_gear_object (fun _ => true) "RingGear" 64 0.05 true 0.2 20 4
    = Ok (Some gear)
    /\ ob_name gear = "RingGear"%string
    /\ Z.of_nat (List.length (mesh_face (ob_data gear))) = 1026%Z.
Proof.
  destruct create_gear_object_example as [gear Hgear].
  exists gear. split; [exact Hgear |].
  destruct (create_gear_object_result _ _ _ _ _ _ _ _ gear Hgear)
    as (Hname & _ & _ & _ & _ & _ & _ & _ & Hlen).
  split; [exact Hname | exact Hlen].
Defined.


(** X20: The outer circle of a ring gear lies strictly outside its teeth: for a
    positive module and a ring margin above -1, every vertex of the outer
    circle is at the distance pitch_radius + 2 * module + ring_margin *
    module from the axis and every vertex of the toothed outline is closer
    than that. *)
Theorem ring_outer_circle_encloses_teeth
  (face_accepted : list Point3D -> bool) (name : string) (num_teeth : Z)
  (scale thickness pressure_angle_deg ring_margin : R) (gear : BObject) :
  0 < scale -> -90 < pressure_angle_deg < 90 -> -1 < ring_margin ->
  create_gear_object face_accepted name num_teeth scale true thickness
    pressure_angle_deg ring_margin = Ok (Some gear) ->
  exists ring teeth,
    mesh_face (ob_data gear) = map flat ring ++ map flat teeth
    /\ build_gear_verts num_teeth scale true pressure_angle_deg = Ok teeth
    /\ Forall (fun p =>
                 norm2 p
                 = (scale * IZR num_teeth / 2 + scale * 2
                    + scale * ring_margin) ^ 2) ring
    /\ Forall (fun p =>
                 norm2 p
                 < (scale * IZR num_teeth / 2 + scale * 2
                    + scale * ring_margin) ^ 2) teeth.
Proof.
  intros Hs Hpa Hrm H.
  pose proof (create_gear_object_some_teeth _ _ _ _ _ _ _ _ _ H) as Hn.
  destruct (create_gear_object_some_inv _ _ _ _ _ _ _ _ _ H)
    as (verts & face & Hverts & _ & -> & ring & _ & Hring & ->).
  exists ring, verts. split; [reflexivity |]. split; [exact Hverts |].
  split; [exact Hring |].
  apply Forall_forall. intros p Hp.
  destruct (outline_norm_bounds num_teeth scale true pressure_angle_deg verts p
              Hn Hs (cos_radians_pos _ Hpa) Hverts Hp) as [Hhi _].
  assert (Hn1 : 1 <= IZR num_teeth) by (apply IZR_le in Hn; exact Hn).
  unfold gear_outer_radius, gear_pitch_radius in Hhi.
  assert (Hout : 0 < scale * IZR num_teeth / 2 + scale) by nra.
  assert (Hmargin : 0 < scale * (1 + ring_margin))
    by (apply Rmult_lt_0_compat; lra).
  assert (Hgap : scale * IZR num_teeth / 2 + scale
                 < scale * IZR num_teeth / 2 + scale * 2 + scale * ring_margin)
    by lra.
  apply Rle_lt_trans with ((scale * IZR num_teeth / 2 + scale) ^ 2);
    [exact Hhi |].
  set (inner := scale * IZR num_teeth / 2 + scale) in *.
  set (outer := scale * IZR num_teeth / 2 + scale * 2 + scale * ring_margin)
    in *.
  simpl. nra.
Qed.

Lemma ring_outer_circle_encloses_teeth_witness :
  exists gear ring teeth,
    create_gear_object (fun _ => true) "RingGear" 64 0.05 true 0.2 20 4
    = Ok (Some gear)
    /\ mesh_face (ob_data gear) = map flat ring ++ map flat teeth
    /\ Forall (fun p =>
                 norm2 p < (0.05 * 64 / 2 + 0.05 * 2 + 0.05 * 4) ^ 2) teeth.
Proof.
  destruct create_gear_object_example as [gear Hgear].
  destruct (ring_outer_circle_encloses_teeth (fun _ => true) "RingGear" 64
              0.05 0.2 20 4 gear ltac:(lra) ltac:(lra) ltac:(lra) Hgear)
    as (ring & teeth & Hface & _ & _ & Hteeth).
  exists gear, ring, teeth. split; [exact Hgear |].
  split; [exact Hface | exact Hteeth].
Defined.

(** ** The scene *)

(** Everything a returning [execute] has linked, in order: the sun turned
    by pi / sun_teeth if it was created, the ring if it was created, and
    one planet per index if the template was created. *)
Lemma execute_scene
  (face_accepted : list Point3D -> bool) (props : PlanetaryGearProperties)
  (objs : list BObject) :
  execute face_accepted props = Ok objs ->
  exists sun_gear module_for_ring ring_gear template,
    create_gear_object face_accepted "SunGear" (sun_teeth props) (scale props)
      false (thickness props) (pressure_angle props) 4 = Ok sun_gear
    /\ effective_module_for_ring props = Ok module_for_ring
    /\ create_gear_object face_accepted "RingGear" (ring_teeth props)
         module_for_ring true (thickness props) (pressure_angle props)
         (ring_margin props) = Ok ring_gear
    /\ create_gear_object face_accepted "PlanetGearTemplate"
         (planet_teeth props) (scale props) false (thickness props)
         (pressure_angle props) 4 = Ok template
    /\ objs
       = match sun_gear with
         | Some sun =>
             [mkObject (ob_name sun) (ob_data sun) (ob_location sun)
                (PI / IZR (sun_teeth props))]
         | None => []
         end
         ++ opt_list ring_gear
         ++ match template with
            | Some t => map (placed_planet props t) (range (num_planets props))
            | None => []
            end.
Proof.
  unfold execute. intros H.
  bind_step H sun_gear Hsun. bind_step H sun_linked Hlinked.
  bind_step H module_for_ring Hmodule. bind_step H ring_gear Hring.
  bind_step H template Htemplate. bind_step H planets Hplanets.
  injection H as <-.
  exists sun_gear, module_for_ring, ring_gear, template.
  repeat (split; [assumption |]).
  f_equal; [| f_equal].
  - destruct sun_gear as [sun |]; [| injection Hlinked as <-; reflexivity].
    apply create_gear_object_some_teeth in Hsun.
    destruct (Z.ltb_spec 0 (sun_teeth props)) as [_ | Hle]; [| lia].
    rewrite py_div_ok in Hlinked by (apply IZR_pos_neq; assumption).
    injection Hlinked as <-. reflexivity.
  - destruct template as [t |]; [| injection Hplanets as <-; reflexivity].
    apply create_gear_object_some_teeth in Htemplate.
    rewrite rotation_ratio_meshing in Hplanets by assumption.
    cbn [bind] in Hplanets. rewrite place_planets_ok in Hplanets.
    injection Hplanets as <-. reflexivity.
Qed.

Lemma create_gear_object_fresh
  (face_accepted : list Point3D -> bool) (name : string) (num_teeth : Z)
  (scale : R) (is_internal : bool) (thickness pressure_angle_deg ring_margin : R)
  (gear : BObject) :
  create_gear_object face_accepted name num_teeth scale is_internal thickness
    pressure_angle_deg ring_margin = Ok (Some gear) ->
  gear = mkObject name (ob_data gear) (0, 0, 0) 0.
Proof.
  intros H.
  destruct (create_gear_object_some_inv _ _ _ _ _ _ _ _ _ H)
    as (verts & face & _ & _ & -> & _).
  reflexivity.
Qed.

(** C7: the ring gear has sun_teeth + 2 * planet_teeth teeth and is built
    as an internal gear with the module module + 4 * clearance /
    ring_teeth, while the sun and the planet are built as external gears
    with the plain module: these three gears are what the scene holds
    (the sun turned, the ring as built, every planet on the template's
    mesh).  The guard of the source passes the plain module only when
    ring_teeth <= 0, and then no ring gear comes back. *)
Theorem ring_gear_parameters
  (face_accepted : list Point3D -> bool) (props : PlanetaryGearProperties)
  (objs : list BObject) :
  execute face_accepted props = Ok objs ->
  exists sun_gear module_for_ring ring_gear template,
    create_gear_object face_accepted "SunGear" (sun_teeth props)
      (scale props) false (thickness props) (pressure_angle props) 4
    = Ok sun_gear
    /\ create_gear_object face_accepted "RingGear"
         (sun_teeth props + 2 * planet_teeth props) module_for_ring true
         (thickness props) (pressure_angle props) (ring_margin props)
       = Ok ring_gear
    /\ create_gear_object face_accepted "PlanetGearTemplate"
         (planet_teeth props) (scale props) false (thickness props)
         (pressure_angle props) 4 = Ok template
    /\ objs
       = match sun_gear with
         | Some sun =>
             [mkObject (ob_name sun) (ob_data sun) (ob_location sun)
                (PI / IZR (sun_teeth props))]
         | None => []
         end
         ++ opt_list ring_gear
         ++ match template with
            | Some t => map (placed_planet props t) (range (num_planets props))
            | None => []
            end
    /\ ((1 <= sun_teeth props + 2 * planet_teeth props)%Z ->
        module_for_ring
        = scale props
          + 4 * clearance props
            / IZR (sun_teeth props + 2 * planet_teeth props))
    /\ (forall sun,
           sun_gear = Some sun ->
           exists outline,
             build_gear_verts (sun_teeth props) (scale props) false
               (pressure_angle props) = Ok outline
             /\ mesh_face (ob_data sun) = map flat outline)
    /\ (forall ring,
           ring_gear = Some ring ->
           In ring objs
           /\ module_for_ring
              = scale props
                + 4 * clearance props
                  / IZR (sun_teeth props + 2 * planet_teeth props)
           /\ exists circle outline,
               build_gear_verts (sun_teeth props + 2 * planet_teeth props)
                 (scale props
                  + 4 * clearance props
                    / IZR (sun_teeth props + 2 * planet_teeth props))
                 true (pressure_angle props) = Ok outline
               /\ Z.of_nat (List.length outline)
                  = (14 * (sun_teeth props + 2 * planet_teeth props) + 1)%Z
               /\ mesh_face (ob_data ring) = map flat circle ++ map flat outline)
    /\ (forall planet,
           template = Some planet ->
           exists outline,
             build_gear_verts (planet_teeth props) (scale props) false
               (pressure_angle props) = Ok outline
             /\ mesh_face (ob_data planet) = map flat outline)
    /\ ((sun_teeth props + 2 * planet_teeth props <= 0)%Z ->
        ring_gear = None).
Proof.
  intros H.
  destruct (execute_scene _ _ _ H)
    as (sun_gear & module_for_ring & ring_gear & template
        & Hsun & Hmodule & Hring & Htemplate & Hobjs).
  unfold ring_teeth in Hring.
  exists sun_gear, module_for_ring, ring_gear, template.
  assert (Hformula : (1 <= sun_teeth props + 2 * planet_teeth props)%Z ->
                     module_for_ring
                     = scale props
                       + 4 * clearance props
                         / IZR (sun_teeth props + 2 * planet_teeth props)).
  { intros Hpos. rewrite effective_module_for_ring_meshing in Hmodule
      by exact Hpos.
    unfold ring_teeth in Hmodule. congruence. }
  assert (Hexternal :
            forall name teeth gear,
              create_gear_object face_accepted name teeth (scale props) false
                (thickness props) (pressure_angle props) 4 = Ok (Some gear) ->
              exists outline,
                build_gear_verts teeth (scale props) false
                  (pressure_angle props) = Ok outline
                /\ mesh_face (ob_data gear) = map flat outline).
  { intros name teeth gear Hgear.
    destruct (create_gear_object_some_inv _ _ _ _ _ _ _ _ _ Hgear)
      as (verts & face & Hverts & _ & -> & ->).
    exists verts. split; [exact Hverts | reflexivity]. }
  split; [exact Hsun |]. split; [exact Hring |]. split; [exact Htemplate |].
  split; [exact Hobjs |]. split; [exact Hformula |].
  split; [intros sun ->; apply (Hexternal _ _ _ Hsun) |].
  split.
  - intros ring ->.
    pose proof (create_gear_object_some_teeth _ _ _ _ _ _ _ _ _ Hring) as Hpos.
    pose proof (Hformula Hpos) as Hmod.
    split; [| split; [exact Hmod |]].
    + rewrite Hobjs. apply in_or_app. right. apply in_or_app. left.
      left. reflexivity.
    + destruct (create_gear_object_some_inv _ _ _ _ _ _ _ _ _ Hring)
        as (verts & face & Hverts & _ & -> & circle & _ & _ & ->).
      rewrite Hmod in Hverts.
      exists circle, verts. split; [exact Hverts |].
      split; [| reflexivity].
      pose proof (build_gear_verts_length _ _ _ _ _ Hpos Hverts) as Hlen.
      unfold num_segments in Hlen. lia.
  - split; [intros planet ->; apply (Hexternal _ _ _ Htemplate) |].
    intros Hnone. destruct ring_gear as [ring |]; [| reflexivity].
    apply create_gear_object_some_teeth in Hring. lia.
Qed.

Lemma ring_gear_parameters_witness :
  exists objs ring circle outline,
    execute (fun _ => true) default_props = Ok objs
    /\ In ring objs
    /\ build_gear_verts 64 (0.05 + 4 * 0.0002 / 64) true 20 = Ok outline
    /\ Z.of_nat (List.length outline) = 897%Z
    /\ mesh_face (ob_data ring) = map flat circle ++ map flat outline.
Proof.
  destruct default_props_run as [objs Hrun].
  destruct (ring_gear_parameters (fun _ => true) default_props objs Hrun)
    as (sun_gear & module_for_ring & ring_gear & template
        & _ & Hring & _ & _ & Hmodule & _ & Hbuilt & _).
  assert (Hmod : module_for_ring = 0.05 + 4 * 0.0002 / 64)
    by (apply Hmodule; simpl; lia).
  destruct (create_gear_object_total (fun _ => true) "RingGear" 64
              (0.05 + 4 * 0.0002 / 64) true 0.2 20 4) as [face Hface];
    [lia | lra | apply cos_radians_pos; lra |].
  cbv beta iota in Hface.
  rewrite Hmod in Hring. simpl in Hring.
  rewrite Hface in Hring. injection Hring as Hring.
  destruct (Hbuilt _ (eq_sym Hring))
    as (Hin & _ & circle & outline & Houtline & Hlen & Hmesh).
  eexists objs, _, circle, outline.
  split; [exact Hrun |]. split; [exact Hin |].
  split; [exact Houtline |]. split; [exact Hlen | exact Hmesh].
Defined.

(** X21: The sun gear is the first object linked: named "SunGear", on the axis,
    turned by pi / sun_teeth.  The ring gear is linked as created: named
    "RingGear", on the axis, not turned. *)
Theorem sun_and_ring_placement
  (face_accepted : list Point3D -> bool) (props : PlanetaryGearProperties)
  (objs : list BObject) :
  execute face_accepted props = Ok objs ->
  (forall sun,
      create_gear_object face_accepted "SunGear" (sun_teeth props)
        (scale props) false (thickness props) (pressure_angle props) 4
      = Ok (Some sun) ->
      hd_error objs
      = Some (mkObject "SunGear" (ob_data sun) (0, 0, 0)
                (PI / IZR (sun_teeth props))))
  /\ (forall module_for_ring ring,
         effective_module_for_ring props = Ok module_for_ring ->
         create_gear_object face_accepted "RingGear" (ring_teeth props)
           module_for_ring true (thickness props) (pressure_angle props)
           (ring_margin props) = Ok (Some ring) ->
         In (mkObject "RingGear" (ob_data ring) (0, 0, 0) 0) objs).
Proof.
  intros H.
  destruct (execute_scene _ _ _ H)
    as (sun_gear & module_for_ring & ring_gear & template
        & Hsun & Hmodule & Hring & _ & ->).
  split.
  - intros sun Hsun'. rewrite Hsun' in Hsun. injection Hsun as <-.
    rewrite (create_gear_object_fresh _ _ _ _ _ _ _ _ _ Hsun'). reflexivity.
  - intros module' ring Hmodule' Hring'.
    rewrite Hmodule' in Hmodule. injection Hmodule as <-.
    rewrite Hring' in Hring. injection Hring as <-.
    rewrite <- (create_gear_object_fresh _ _ _ _ _ _ _ _ _ Hring').
    apply in_or_app. right. apply in_or_app. left. left. reflexivity.
Qed.

Lemma sun_and_ring_placement_witness :
  exists objs,
    execute (fun _ => true) default_props = Ok objs
    /\ forall sun,
        create_gear_object (fun _ => true) "SunGear" 32 0.05 false 0.2 20 4
        = Ok (Some sun) ->
        hd_error objs
        = Some (mkObject "SunGear" (ob_data sun) (0, 0, 0) (PI / 32)).
Proof.
  destruct default_props_run as [objs Hrun].
  exists objs. split; [exact Hrun |].
  apply (sun_and_ring_placement (fun _ => true) default_props objs Hrun).
Defined.

(** X22: What gets linked has one of the names "SunGear", "RingGear" or
    "PlanetGear_<i>" with 1 <= i <= num_planets; the template object
    "PlanetGearTemplate" is never linked. *)
Theorem linked_object_names
  (face_accepted : list Point3D -> bool) (props : PlanetaryGearProperties)
  (objs : list BObject) :
  execute face_accepted props = Ok objs ->
  Forall (fun o =>
            ob_name o = "SunGear"%string
            \/ ob_name o = "RingGear"%string
            \/ exists i, (1 <= i <= num_planets props)%Z
                         /\ ob_name o = ("PlanetGear_" ++ str i)%string) objs
  /\ Forall (fun o => ob_name o <> "PlanetGearTemplate"%string) objs.
Proof.
  intros H.
  destruct (execute_scene _ _ _ H)
    as (sun_gear & module_for_ring & ring_gear & template
        & Hsun & _ & Hring & _ & ->).
  assert (Hnames :
            Forall (fun o =>
                      ob_name o = "SunGear"%string
                      \/ ob_name o = "RingGear"%string
                      \/ exists i, (1 <= i <= num_planets props)%Z
                                   /\ ob_name o = ("PlanetGear_" ++ str i)%string)
              (match sun_gear with
               | Some sun =>
                   [mkObject (ob_name sun) (ob_data sun) (ob_location sun)
                      (PI / IZR (sun_teeth props))]
               | None => []
               end
               ++ opt_list ring_gear
               ++ match template with
                  | Some t =>
                      map (placed_planet props t) (range (num_planets props))
                  | None => []
                  end)).
  { apply Forall_app. split; [| apply Forall_app; split].
    - destruct sun_gear as [sun |]; [| constructor].
      constructor; [| constructor]. left.
      rewrite (create_gear_object_fresh _ _ _ _ _ _ _ _ _ Hsun). reflexivity.
    - destruct ring_gear as [ring |]; [| constructor].
      constructor; [| constructor]. right. left.
      rewrite (create_gear_object_fresh _ _ _ _ _ _ _ _ _ Hring). reflexivity.
    - destruct template as [t |]; [| constructor].
      apply Forall_forall. intros o Ho.
      apply in_map_iff in Ho. destruct Ho as [i [<- Hi]].
      apply range_In in Hi. right. right.
      exists (i + 1)%Z. split; [lia | reflexivity]. }
  split; [exact Hnames |].
  apply Forall_forall. intros o Ho Heq.
  rewrite Forall_forall in Hnames.
  destruct (Hnames o Ho) as [Hn | [Hn | [i [_ Hn]]]];
    rewrite Hn in Heq; simpl in Heq; discriminate.
Qed.

Lemma linked_object_names_witness :
  exists objs,
    execute (fun _ => true) default_props = Ok objs
    /\ Forall (fun o => ob_name o <> "PlanetGearTemplate"%string) objs.
Proof.
  destruct default_props_run as [objs Hrun].
  exists objs. split; [exact Hrun |].
  apply (linked_object_names (fun _ => true) default_props objs Hrun).
Defined.





(** X25: A tooth count of 0 for the sun, the planets or the ring stops the
    whole operation: [execute] does not return, and with sun_teeth = 0 it
    is the first gear that raises [ZeroDivisionError]. *)
Theorem zero_teeth_abort_layout
  (face_accepted : list Point3D -> bool) (props : PlanetaryGearProperties) :
  (sun_teeth props = 0 \/ planet_teeth props = 0
   \/ sun_teeth props + 2 * planet_teeth props = 0)%Z ->
  (forall objs, execute face_accepted props <> Ok objs)
  /\ (sun_teeth props = 0%Z ->
      execute face_accepted props = Raise ZeroDivisionError).
Proof.
  intros Hzero. split.
  - intros objs H.
    destruct (execute_scene _ _ _ H)
      as (sun_gear & module_for_ring & ring_gear & template
          & Hsun & _ & Hring & Htemplate & _).
    unfold ring_teeth in Hring.
    destruct Hzero as [Hz | [Hz | Hz]]; rewrite Hz in *.
    + rewrite create_gear_object_propagates with (e := ZeroDivisionError)
        in Hsun by apply build_gear_verts_zero_teeth. discriminate.
    + rewrite create_gear_object_propagates with (e := ZeroDivisionError)
        in Htemplate by apply build_gear_verts_zero_teeth. discriminate.
    + rewrite create_gear_object_propagates with (e := ZeroDivisionError)
        in Hring by apply build_gear_verts_zero_teeth. discriminate.
  - intros Hz. unfold execute. rewrite Hz.
    rewrite create_gear_object_propagates with (e := ZeroDivisionError)
      by apply build_gear_verts_zero_teeth.
    reflexivity.
Qed.

Lemma zero_teeth_abort_layout_witness :
  execute (fun _ => true) (mkProps 0 16 6 20 0.05 0.2 4 0.0002)
  = Raise ZeroDivisionError.
Proof.
  destruct (zero_teeth_abort_layout (fun _ => true)
              (mkProps 0 16 6 20 0.05 0.2 4 0.0002)) as [_ H];
    [left; reflexivity |].
  apply H. reflexivity.
Defined.

(** X26: The clearance term of the ring's module moves its pitch circle out by
    exactly two clearances: the ring's pitch radius is the orbit radius
    plus the planet's pitch radius plus the clearance, and the orbit
    radius is the sun's pitch radius plus the planet's plus the clearance. *)
Theorem ring_pitch_circle_meets_planets
  (props : PlanetaryGearProperties) (module_for_ring : R) :
  (1 <= ring_teeth props)%Z ->
  effective_module_for_ring props = Ok module_for_ring ->
  module_for_ring * IZR (ring_teeth props) / 2
  = orbit_radius props + scale props * IZR (planet_teeth props) / 2
    + clearance props
  /\ orbit_radius props
     = scale props * IZR (sun_teeth props) / 2
       + scale props * IZR (planet_teeth props) / 2 + clearance props.
Proof.
  intros Hring H.
  rewrite effective_module_for_ring_meshing in H by assumption.
  assert (Hmod : module_for_ring
                 = scale props + 4 * clearance props / IZR (ring_teeth props))
    by congruence.
  assert (Hnz : IZR (ring_teeth props) <> 0) by (apply IZR_pos_neq; assumption).
  rewrite Hmod. unfold orbit_radius.
  replace (IZR (ring_teeth props))
    with (IZR (sun_teeth props) + 2 * IZR (planet_teeth props)) in *
    by (unfold ring_teeth; rewrite plus_IZR, mult_IZR; reflexivity).
  rewrite plus_IZR. split; field. assumption.
Qed.

Lemma ring_pitch_circle_meets_planets_witness :
  exists module_for_ring,
    effective_module_for_ring default_props = Ok module_for_ring
    /\ module_for_ring * 64 / 2
       = orbit_radius default_props + 0.05 * 16 / 2 + 0.0002.
Proof.
  assert (Hring : (1 <= ring_teeth default_props)%Z)
    by (unfold ring_teeth; simpl; lia).
  pose proof (effective_module_for_ring_meshing default_props Hring) as Hmod.
  destruct (ring_pitch_circle_meets_planets default_props _ Hring Hmod)
    as [Hpitch _].
  eexists. split; [exact Hmod | exact Hpitch].
Defined.

(** X27: Every planet that is linked stands on the orbit circle, in the plane
    z = 0, and shares the mesh data of the template. *)
Theorem planets_on_orbit_circle
  (face_accepted : list Point3D -> bool) (props : PlanetaryGearProperties)
  (objs : list BObject) (template : BObject) :
  execute face_accepted props = Ok objs ->
  create_gear_object face_accepted "PlanetGearTemplate" (planet_teeth props)
    (scale props) false (thickness props) (pressure_angle props) 4
  = Ok (Some template) ->
  Forall (fun o =>
            ob_name o = "SunGear"%string \/ ob_name o = "RingGear"%string
            \/ (ob_data o = ob_data template
                /\ snd (ob_location o) = 0
                /\ norm2 (fst (ob_location o))
                   = (IZR (sun_teeth props + planet_teeth props) * scale props
                      / 2 + clearance props) ^ 2)) objs.
Proof.
  intros H Htemplate.
  destruct (execute_scene _ _ _ H)
    as (sun_gear & module_for_ring & ring_gear & template'
        & Hsun & _ & Hring & Htemplate' & ->).
  rewrite Htemplate in Htemplate'. injection Htemplate' as <-.
  apply Forall_app. split; [| apply Forall_app; split].
  - destruct sun_gear as [sun |]; [| constructor].
    constructor; [| constructor]. left.
    rewrite (create_gear_object_fresh _ _ _ _ _ _ _ _ _ Hsun). reflexivity.
  - destruct ring_gear as [ring |]; [| constructor].
    constructor; [| constructor]. right. left.
    rewrite (create_gear_object_fresh _ _ _ _ _ _ _ _ _ Hring). reflexivity.
  - apply Forall_forall. intros o Ho.
    apply in_map_iff in Ho. destruct Ho as [i [<- _]].
    right. right. split; [reflexivity |]. split; [reflexivity |].
    unfold placed_planet. cbn [ob_location fst snd].
    apply (polar_norm (orbit_radius props)).
Qed.

Lemma planets_on_orbit_circle_witness :
  exists objs template,
    execute (fun _ => true) default_props = Ok objs
    /\ Forall (fun o =>
                 ob_name o = "SunGear"%string \/ ob_name o = "RingGear"%string
                 \/ (ob_data o = ob_data template
                     /\ snd (ob_location o) = 0
                     /\ norm2 (fst (ob_location o))
                        = (IZR (32 + 16) * 0.05 / 2 + 0.0002) ^ 2)) objs.
Proof.
  destruct default_props_run as [objs Hrun].
  destruct (create_gear_object_total (fun _ => true) "PlanetGearTemplate" 16
              0.05 false 0.2 20 4) as [face Htemplate];
    [lia | lra | apply cos_radians_pos; lra |].
  cbv beta iota in Htemplate.
  eexists objs, _. split; [exact Hrun |].
  apply (planets_on_orbit_circle (fun _ => true) default_props objs _ Hrun
           Htemplate).
Defined.

(** X28: No configuration the property group admits makes [execute] raise:
    within the declared limits the ring has between 12 and 600 teeth and
    the operation returns, linking at most 22 objects. *)
Theorem execute_within_declared_range
  (face_accepted : list Point3D -> bool) (props : PlanetaryGearProperties) :
  in_declared_range props ->
  (12 <= ring_teeth props <= 600)%Z
  /\ exists objs,
      execute face_accepted props = Ok objs
      /\ (List.length objs <= 22)%nat.
Proof.
  intros (Hsun & Hplanet & Hnum & Hpa & Hscale & _ & _ & Hclear).
  split; [unfold ring_teeth; lia |].
  destruct (execute_total face_accepted props) as [objs Hobjs];
    [lia | lia | lra | lra | apply cos_radians_pos; lra |].
  exists objs. split; [exact Hobjs |].
  destruct (execute_scene _ _ _ Hobjs)
    as (sun_gear & module_for_ring & ring_gear & template & _ & _ & _ & _ & ->).
  rewrite !length_app.
  assert (H1 : (List.length
                  match sun_gear with
                  | Some sun =>
                      [mkObject (ob_name sun) (ob_data sun) (ob_location sun)
                         (PI / IZR (sun_teeth props))]
                  | None => []
                  end <= 1)%nat) by (destruct sun_gear; simpl; lia).
  assert (H2 : (List.length (opt_list ring_gear) <= 1)%nat)
    by (destruct ring_gear; simpl; lia).
  assert (H3 : (List.length
                  match template with
                  | Some t =>
                      map (placed_planet props t) (range (num_planets props))
                  | None => []
                  end <= 20)%nat).
  { destruct template; [rewrite length_map, range_length | simpl]; lia. }
  lia.
Qed.

Lemma default_props_in_declared_range : in_declared_range default_props.
Proof.
  unfold in_declared_range. simpl. repeat split; try lia; lra.
Qed.

Lemma execute_within_declared_range_witness :
  (12 <= ring_teeth default_props <= 600)%Z
  /\ exists objs,
      execute (fun _ => true) default_props = Ok objs
      /\ (List.length objs <= 22)%nat.
Proof.
  apply (execute_within_declared_range (fun _ => true) default_props).
  apply default_props_in_declared_range.
Defined.
